(** * DeepLabV3Example: the segmentation-overlay pipeline of [src/App.tsx]

    A shallow embedding of the [ImageSegmentation] component: the constants
    [IMAGES] and [PALETTE], the asynchronous callback [handleImage] as a
    program over the calls it makes to its collaborators (image loader,
    model, drawing surface, React state), and the properties of one run. *)

From Stdlib Require Import ZArith Floats.SpecFloat Strings.Byte.
From stdpp Require Import base list strings relations.

Local Open Scope nat_scope.

(** ** JavaScript numbers

    A JS [number] is an IEEE 754 binary64 value; [spec_float] with precision
    53 and maximal exponent 1024 is that format, with round-to-nearest-even
    arithmetic. *)
Module Number.

Definition number : Type := spec_float.

Definition prec : Z := 53.
Definition emax : Z := 1024.

(** The number denoted by an integer literal or an integer-valued property
    such as [image.getWidth()]. *)
Definition of_Z (z : Z) : number := binary_normalize prec emax z 0 false.
Definition of_nat (n : nat) : number := of_Z (Z.of_nat n).

(** The operator [/] on numbers. *)
Definition div (a b : number) : number := SFdiv prec emax a b.

(** A decimal literal [n/d] with [n] and [d] exactly representable: the
    correctly rounded quotient is the double nearest to the decimal. *)
Definition decimal (n d : Z) : number := div (of_Z n) (of_Z d).

Definition one : number := S754_finite false 4503599627370496 (-52).

(** [Math.min(a, b)]: NaN if either argument is NaN, [-0] below [+0],
    otherwise the smaller argument. *)
Definition Math_min (a b : number) : number :=
  match SFcompare a b with
  | None => S754_nan
  | Some Lt => a
  | Some Gt => b
  | Some Eq =>
      match a, b with
      | S754_zero false, S754_zero true => b
      | _, _ => a
      end
  end.

Definition is_finite_nonzero (x : number) : bool :=
  match x with
  | S754_finite _ _ _ => true
  | _ => false
  end.

End Number.

Export Number (number).

(** ** Tensors of the on-device runtime

    [react-native-pytorch-core] is an external collaborator.  A tensor is a
    shape with its elements in row-major order, which is how the component
    reads one back ([max.data], indexed [i * width + j]). *)
Module Tensor.

Record Tensor (A : Type) : Type := mkTensor {
  shape : list nat;
  data : list A
}.
Arguments mkTensor {A} _ _.
Arguments shape {A} _.
Arguments data {A} _.

(** Element arithmetic of dtype [float32], kept abstract: the cast from
    [uint8], the conversion of a scalar number, division, subtraction and
    the comparison [<] used by the reductions. *)
Class ElemOps (F : Type) : Type := {
  of_uint8 : Byte.byte -> F;
  of_number : number -> F;
  fdiv : F -> F -> F;
  fsub : F -> F -> F;
  fltb : F -> F -> bool
}.

(** Number of elements of a shape. *)
Definition numel (sh : list nat) : nat := foldr Nat.mul 1 sh.

(** Row-major offset of a multi-index, and the multi-index of an offset. *)
Fixpoint ravel (sh idx : list nat) : nat :=
  match sh, idx with
  | _ :: sh', i :: idx' => i * numel sh' + ravel sh' idx'
  | _, _ => 0
  end.

Fixpoint unravel (sh : list nat) (k : nat) : list nat :=
  match sh with
  | [] => []
  | _ :: sh' => k / numel sh' :: unravel sh' (k mod numel sh')
  end.

(** [t[idx]], for a multi-index within the shape. *)
Definition in_bounds (sh idx : list nat) : Prop := Forall2 lt idx sh.

Definition get {A} (t : Tensor A) (idx : list nat) : option A :=
  data t !! ravel (shape t) idx.

Section Ops.
Context {F : Type} `{ElemOps F}.

(** Modelled from the spec: [torch.fromBlob(blob, sizes)] of the external
    runtime; the blob's bytes become the elements of a [uint8] tensor of
    the given shape. *)
Definition fromBlob (blob : list Byte.byte) (sizes : list nat) : Tensor Byte.byte :=
  mkTensor sizes blob.

(** Modelled from the spec: [.to({dtype: torch.float32})] of the external
    runtime, the element-wise cast. *)
Definition to_float32 (t : Tensor Byte.byte) : Tensor F :=
  mkTensor (shape t) (of_uint8 <$> data t).

(** Modelled from the spec: [.div(s)] of the external runtime, every
    element divided by the scalar. *)
Definition div (t : Tensor F) (s : number) : Tensor F :=
  mkTensor (shape t) ((fun x => fdiv x (of_number s)) <$> data t).

(** Position of axis [d] in the list [dims]. *)
Fixpoint axis_position (d : nat) (dims : list nat) : option nat :=
  match dims with
  | [] => None
  | d' :: dims' =>
      if decide (d' = d) then Some 0 else S <$> axis_position d dims'
  end.

(** The multi-index in the source tensor of the element that [permute dims]
    puts at [idx']: source axis [d] carries the coordinate of the new axis
    [a] with [dims[a] = d]. *)
Definition permute_source (dims idx' : list nat) : list nat :=
  (fun d => default 0 (axis_position d dims ≫= (idx' !!.))) <$> seq 0 (length dims).

(** Modelled from the spec: [.permute(dims)] of the external runtime; axis
    [a] of the result is axis [dims[a]] of the argument. *)
Definition permute {A} (dims : list nat) (t : Tensor A) : Tensor A :=
  let sh' := (fun d => default 0 (shape t !! d)) <$> dims in
  mkTensor sh'
    (omap (fun k => get t (permute_source dims (unravel sh' k)))
          (seq 0 (numel sh'))).

(** Modelled from the spec: [torchvision.transforms.normalize(mean, std)] of
    the external runtime on a channel-first tensor: the element of channel
    [c] becomes [(x - mean[c]) / std[c]]. *)
Definition normalize (mean std : list number) (t : Tensor F) : Tensor F :=
  let plane := numel (tail (shape t)) in
  mkTensor (shape t)
    (imap (fun k x =>
             match mean !! (k / plane), std !! (k / plane) with
             | Some m, Some s => fdiv (fsub x (of_number m)) (of_number s)
             | _, _ => x
             end) (data t)).

(** Modelled from the spec: [.unsqueeze(0)] of the external runtime. *)
Definition unsqueeze0 {A} (t : Tensor A) : Tensor A :=
  mkTensor (1 :: shape t) (data t).

(** Modelled from the spec: [.squeeze(0)] of the external runtime; the
    leading axis is removed when its size is 1. *)
Definition squeeze0 {A} (t : Tensor A) : Tensor A :=
  match shape t with
  | 1 :: sh => mkTensor sh (data t)
  | _ => t
  end.

(** Scan of one column of scores in ascending class order: the candidate is
    replaced only by a strictly greater score. *)
Fixpoint argmax_scan (best : nat) (bv : F) (c : nat) (xs : list F) : nat :=
  match xs with
  | [] => best
  | x :: xs' =>
      if fltb bv x then argmax_scan c x (S c) xs'
      else argmax_scan best bv (S c) xs'
  end.

Definition argmax_list (xs : list F) : nat :=
  match xs with
  | [] => 0
  | x :: xs' => argmax_scan 0 x 1 xs'
  end.

(** The scores along axis 0 at offset [k] of the remaining axes. *)
Definition column (t : Tensor F) (k : nat) : list F :=
  match shape t with
  | [] => []
  | n :: sh => omap (fun c => data t !! (c * numel sh + k)) (seq 0 n)
  end.

(** Modelled from the spec: [.argmax({dim: 0})] of the external runtime; for
    every position of the remaining axes the index along axis 0 of the
    first maximal element. *)
Definition argmax0 (t : Tensor F) : Tensor nat :=
  let sh := tail (shape t) in
  mkTensor sh ((fun k => argmax_list (column t k)) <$> seq 0 (numel sh)).

End Ops.

End Tensor.

Export Tensor (Tensor, ElemOps).

(** ** Constants of [App.tsx] *)

Definition MODEL : string :=
  "https://github.com/pytorch/live/releases/download/v0.1.0/deeplabv3.ptl".

Definition IMAGES : list string := [
  "https://raw.githubusercontent.com/liuyinglao/TestData/main/airplane_resized.jpeg";
  "https://raw.githubusercontent.com/liuyinglao/TestData/main/voc2012_02.jpeg";
  "https://raw.githubusercontent.com/liuyinglao/TestData/main/voc2012_06.jpeg";
  "https://raw.githubusercontent.com/liuyinglao/TestData/main/voc2012_13.jpeg";
  "https://raw.githubusercontent.com/liuyinglao/TestData/main/voc2012_07.jpeg";
  "https://raw.githubusercontent.com/liuyinglao/TestData/main/voc2012_08.jpeg";
  "https://github.com/pytorch/hub/raw/master/images/deeplab1.png"
]%string.

Definition PALETTE : list string := [
  "aliceblue"; "cornflowerblue"; "cornsilk"; "crimson"; "cyan"; "darkblue";
  "darkcyan"; "darkgoldenrod"; "darkgray"; "antiquewhite"; "aqua";
  "aquamarine"; "beige"; "blue"; "blueviolet"; "brown"; "burlywood";
  "cadetblue"; "chartreuse"; "chocolate"; "coral"
]%string.

(** The arguments of [torchvision.transforms.normalize] in [handleImage]. *)
Definition normalize_mean : list number :=
  [Number.decimal 485 1000; Number.decimal 456 1000; Number.decimal 406 1000].
Definition normalize_std : list number :=
  [Number.decimal 229 1000; Number.decimal 224 1000; Number.decimal 225 1000].

(** ** Values handled by the component *)

(** An image of the image loader: [getWidth()], [getHeight()] and the pixel
    bytes that [media.toBlob] extracts. *)
Record Image : Type := mkImage {
  getWidth : nat;
  getHeight : nat;
  toBlob : list Byte.byte
}.

(** The loaded model returned by [useModel]; [null] is [None]. *)
Inductive Module : Type := LoadedModule (url : string).

(** The drawing context held by [context2DRef]; [null] is [None]. *)
Inductive CanvasRenderingContext2D : Type := Context2D.

(** [type DeepLabV3Result = { out: Tensor }]. *)
Record DeepLabV3Result (F : Type) : Type := mkResult { out : Tensor F }.
Arguments mkResult {F} _.
Arguments out {F} _.

(** What a run can raise: a [TypeError] of the language (a property read on
    [undefined]) or an error raised or rejected by a collaborator. *)
Inductive error : Type :=
  | TypeError (message : string)
  | CollaboratorError (message : string).

Inductive outcome (R : Type) : Type :=
  | Returned (r : R)
  | Rejected (e : error).
Arguments Returned {R} _.
Arguments Rejected {R} _.

Section Component.
Context {F : Type} `{ElemOps F}.

(** ** Calls made by [handleImage], indexed by the type of their result *)
Inductive call : Type -> Type :=
  | Alert_alert (title message : string) : call unit
  | setIsProcessing (b : bool) : call unit
  | ctx_clear : call unit
  | ctx_invalidate : call unit
  | ctx_save : call unit
  | ctx_scale (sx sy : number) : call unit
  | ctx_drawImage (image : Image) (dx dy dw dh : nat) : call unit
  | ctx_set_fillStyle (style : option string) : call unit
  | ctx_fillRect (x y w h : nat) : call unit
  | ctx_restore : call unit
  | ImageUtil_fromURL (url : string) : call Image
  | Dimensions_get_window_width : call number
  | model_forward (model : Module) (input : Tensor F)
      : call (option (DeepLabV3Result F)).

(** A program: it returns, throws, makes a synchronous call, or awaits the
    promise of a call. *)
Inductive prog (R : Type) : Type :=
  | Ret (r : R)
  | Throw (e : error)
  | Do {X : Type} (c : call X) (k : X -> prog R)
  | Await {X : Type} (c : call X) (k : X -> prog R).
Arguments Ret {R} _.
Arguments Throw {R} _.
Arguments Do {R X} _ _.
Arguments Await {R X} _ _.

Fixpoint bind {A B} (p : prog A) (f : A -> prog B) : prog B :=
  match p with
  | Ret a => f a
  | Throw e => Throw e
  | Do c k => Do c (fun x => bind (k x) f)
  | Await c k => Await c (fun x => bind (k x) f)
  end.

Definition do_ {X} (c : call X) : prog X := Do c Ret.
Definition await {X} (c : call X) : prog X := Await c Ret.

Notation "x <- p ;; q" := (bind p (fun x => q))
  (at level 100, p at next level, right associativity, only parsing).
Notation "p ;; q" := (bind p (fun _ => q))
  (at level 100, right associativity, only parsing).

(** [for (let x of l) body]. *)
Fixpoint for_each {A} (l : list A) (body : A -> prog unit) : prog unit :=
  match l with
  | [] => Ret tt
  | x :: l' => body x ;; for_each l' body
  end.

(** ** [handleImage] *)

(** Lines 105-115: the input tensor built from the image. *)
Definition preprocess (image : Image) : Tensor F :=
  let height := getHeight image in
  let width := getWidth image in
  let blob := toBlob image in
  let tensor :=
    Tensor.permute [2; 0; 1]
      (Tensor.div (Tensor.to_float32 (Tensor.fromBlob blob [height; width; 3]))
                  (Number.of_Z 255)) in
  let tensor := Tensor.normalize normalize_mean normalize_std tensor in
  Tensor.unsqueeze0 tensor.

(** Line 119: [output?.out.squeeze(0).argmax({ dim: 0 })]; the optional
    chain yields [undefined] when [output] is [undefined]. *)
Definition decode (output : option (DeepLabV3Result F)) : option (Tensor nat) :=
  (fun o => Tensor.argmax0 (Tensor.squeeze0 (out o))) <$> output.

(** Line 124. *)
Definition newScaleFactor (height width : nat) (windowWidth : number) : number :=
  Number.Math_min (Number.div (Number.of_Z 250) (Number.of_nat height))
                  (Number.div windowWidth (Number.of_nat width)).

(** Lines 137-141: one iteration of the inner loop.  [colors[k]] is
    [undefined] out of range, and [undefined > 0] is false. *)
Definition paint_pixel (colors : list nat) (width i j : nat) : prog unit :=
  match colors !! (i * width + j) with
  | Some idx =>
      if 0 <? idx then
        do_ (ctx_set_fillStyle (PALETTE !! idx)) ;;
        do_ (ctx_fillRect j i 1 1)
      else Ret tt
  | None => Ret tt
  end.

(** Lines 134-143: [max.data] throws when [max] is [undefined]. *)
Definition paint_mask (max : option (Tensor nat)) (height width : nat) : prog unit :=
  match max with
  | None => Throw (TypeError "Cannot read property 'data' of undefined")
  | Some max =>
      let colors := Tensor.data max in
      for_each (seq 0 height) (fun i =>
        for_each (seq 0 width) (fun j => paint_pixel colors width i j))
  end.

(** Lines 121-148. *)
Definition render (ctx : option CanvasRenderingContext2D) (image : Image)
    (max : option (Tensor nat)) : prog unit :=
  match ctx with
  | Some _ =>
      let height := getHeight image in
      let width := getWidth image in
      windowWidth <- do_ Dimensions_get_window_width ;;
      let newScaleFactor := newScaleFactor height width windowWidth in
      do_ ctx_save ;;
      do_ (ctx_scale newScaleFactor newScaleFactor) ;;
      do_ (ctx_drawImage image 0 0 width height) ;;
      paint_mask max height width ;;
      do_ ctx_restore ;;
      await ctx_invalidate
  | None => Ret tt
  end.

(** Lines 83-151.  [model] and [context2DRef.current] are what the callback
    reads from the component. *)
Definition handleImage (model : option Module)
    (context2DRef_current : option CanvasRenderingContext2D)
    (imageUrl : string) : prog unit :=
  match model with
  | None =>
      do_ (Alert_alert "Model not loaded" "The model has not been loaded yet") ;;
      Ret tt
  | Some model =>
      do_ (setIsProcessing true) ;;
      let ctx := context2DRef_current in
      match ctx with
      | Some _ => do_ ctx_clear ;; await ctx_invalidate
      | None => Ret tt
      end ;;
      image <- await (ImageUtil_fromURL imageUrl) ;;
      let tensor := preprocess image in
      output <- await (model_forward model tensor) ;;
      let max := decode output in
      render ctx image max ;;
      do_ (setIsProcessing false)
  end.

End Component.

Arguments Ret {F R} _.
Arguments Throw {F R} _.
Arguments Do {F R X} _ _.
Arguments Await {F R X} _ _.

(** ** The drawing surface

    The canvas of [react-native-pytorch-core] is an external collaborator;
    the component only calls its interface. *)
Module Canvas.

(** A queued drawing command, with the transform in force when it was
    issued (the scale factors applied, innermost first). *)
Inductive command : Type :=
  | DrawImage (transform : list (number * number)) (image : Image)
      (dx dy dw dh : nat)
  | FillRect (transform : list (number * number)) (style : option string)
      (x y w h : nat).

(** Modelled from the spec: the state behind the drawing-surface interface
    of the external canvas: the transform in force, the stack of saved
    transforms, the fill style, the commands queued since the last
    [clear], and the commands committed to the screen by [invalidate]. *)
Record Canvas : Type := mkCanvas {
  transform : list (number * number);
  saved : list (list (number * number));
  fillStyle : option string;
  pending : list command;
  displayed : list command
}.

Definition blank : Canvas := mkCanvas [] [] None [] [].

(** Modelled from the spec: [clear()] empties the queue. *)
Definition clear (cv : Canvas) : Canvas :=
  mkCanvas (transform cv) (saved cv) (fillStyle cv) [] (displayed cv).

(** Modelled from the spec: [invalidate()] commits the pending draws. *)
Definition invalidate (cv : Canvas) : Canvas :=
  mkCanvas (transform cv) (saved cv) (fillStyle cv) (pending cv) (pending cv).

(** Modelled from the spec: [save()] and [restore()] push and pop the
    transform on the scoped transform stack; [restore()] on an empty stack
    does nothing. *)
Definition save (cv : Canvas) : Canvas :=
  mkCanvas (transform cv) (transform cv :: saved cv) (fillStyle cv)
           (pending cv) (displayed cv).

Definition restore (cv : Canvas) : Canvas :=
  match saved cv with
  | [] => cv
  | t :: st => mkCanvas t st (fillStyle cv) (pending cv) (displayed cv)
  end.

(** Modelled from the spec: [scale(sx, sy)] composes a scale with the
    transform in force. *)
Definition scale (sx sy : number) (cv : Canvas) : Canvas :=
  mkCanvas ((sx, sy) :: transform cv) (saved cv) (fillStyle cv)
           (pending cv) (displayed cv).

(** Modelled from the spec: [drawImage(image, x, y, w, h)] queues the image
    under the transform in force. *)
Definition drawImage (image : Image) (dx dy dw dh : nat) (cv : Canvas) : Canvas :=
  mkCanvas (transform cv) (saved cv) (fillStyle cv)
           (pending cv ++ [DrawImage (transform cv) image dx dy dw dh])
           (displayed cv).

(** Modelled from the spec: the [fillStyle] setter; [None] is the value
    [undefined]. *)
Definition set_fillStyle (style : option string) (cv : Canvas) : Canvas :=
  mkCanvas (transform cv) (saved cv) style (pending cv) (displayed cv).

(** Modelled from the spec: [fillRect(x, y, w, h)] queues a rectangle with
    the current fill style under the transform in force. *)
Definition fillRect (x y w h : nat) (cv : Canvas) : Canvas :=
  mkCanvas (transform cv) (saved cv) (fillStyle cv)
           (pending cv ++ [FillRect (transform cv) (fillStyle cv) x y w h])
           (displayed cv).

(** The rectangles among a list of commands, with their fill style. *)
Definition rectangles (cmds : list command) : list (nat * nat * nat * nat * option string) :=
  omap (fun cmd =>
          match cmd with
          | FillRect _ style x y w h => Some (x, y, w, h, style)
          | DrawImage _ _ _ _ _ _ => None
          end) cmds.

End Canvas.

Export Canvas (Canvas).

(** ** Running a program *)
Section Semantics.
Context {F : Type} `{ElemOps F}.

Inductive event : Type :=
  | Called {X : Type} (c : call (F := F) X).

(** What the component and its drawing surface hold, and the calls issued
    so far. *)
Record World : Type := mkWorld {
  isProcessing : bool;
  canvas : Canvas;
  trace : list event
}.

(** The collaborators: given the calls issued so far, the call being
    answered among them, a call completes with a result or raises (rejects,
    when awaited). *)
Definition oracle : Type := forall X, list event -> call (F := F) X -> X + error.

(** The React state setter and [Alert.alert] always complete. *)
Definition answer (env : oracle) (tr : list event) {X} (c : call X) : X + error :=
  match c in call X return X + error -> X + error with
  | setIsProcessing _ => fun _ => inl tt
  | Alert_alert _ _ => fun _ => inl tt
  | _ => fun r => r
  end (env X tr c).

(** The error, if any, with which the call of an event fails when issued
    after the calls [tr]. *)
Definition failure (env : oracle) (tr : list event) (ev : event) : option error :=
  match ev with
  | Called c =>
      match answer env (tr ++ [Called c]) c with
      | inl _ => None
      | inr e => Some e
      end
  end.

Definition issue {X} (c : call (F := F) X) (w : World) : World :=
  mkWorld (isProcessing w) (canvas w) (trace w ++ [Called c]).

Definition on_canvas (f : Canvas -> Canvas) (w : World) : World :=
  mkWorld (isProcessing w) (f (canvas w)) (trace w).

(** The effect of a completed call. *)
Definition effect {X} (c : call (F := F) X) (w : World) : World :=
  match c with
  | setIsProcessing b => mkWorld b (canvas w) (trace w)
  | ctx_clear => on_canvas Canvas.clear w
  | ctx_invalidate => on_canvas Canvas.invalidate w
  | ctx_save => on_canvas Canvas.save w
  | ctx_scale sx sy => on_canvas (Canvas.scale sx sy) w
  | ctx_drawImage image dx dy dw dh =>
      on_canvas (Canvas.drawImage image dx dy dw dh) w
  | ctx_set_fillStyle style => on_canvas (Canvas.set_fillStyle style) w
  | ctx_fillRect x y w' h => on_canvas (Canvas.fillRect x y w' h) w
  | ctx_restore => on_canvas Canvas.restore w
  | Alert_alert _ _ | ImageUtil_fromURL _ | Dimensions_get_window_width
  | model_forward _ _ => w
  end.

(** One run taken alone, from its call to the settlement of its promise. *)
Fixpoint exec {R} (env : oracle) (p : prog R) (w : World) : outcome R * World :=
  match p with
  | Ret r => (Returned r, w)
  | Throw e => (Rejected e, w)
  | Do c k | Await c k =>
      match answer env (trace w ++ [Called c]) c with
      | inl x => exec env (k x) (effect c (issue c w))
      | inr e => (Rejected e, issue c w)
      end
  end.

(** ** The component with several runs

    A run executes up to its next [await] and is then suspended until the
    awaited promise settles; other callbacks run in between. *)
Record Suspended : Type := mkSuspended {
  awaited_type : Type;
  awaited : call (F := F) awaited_type;
  resume : awaited_type -> prog (F := F) unit
}.

Inductive status : Type :=
  | Finished (o : outcome unit)
  | Waiting (s : Suspended).

Fixpoint advance (env : oracle) (p : prog unit) (w : World) : status * World :=
  match p with
  | Ret r => (Finished (Returned r), w)
  | Throw e => (Finished (Rejected e), w)
  | Do c k =>
      match answer env (trace w ++ [Called c]) c with
      | inl x => advance env (k x) (effect c (issue c w))
      | inr e => (Finished (Rejected e), issue c w)
      end
  | Await c k => (Waiting (mkSuspended _ c k), issue c w)
  end.

Record Component : Type := mkComponent {
  isReady : bool;
  model : option Module;
  context2DRef : option CanvasRenderingContext2D;
  imageIndex : nat;
  world : World;
  inflight : list Suspended;
  settled : list (outcome unit)
}.

Definition after_advance (cmp : Component) (inflight' : list Suspended)
    (r : status * World) : Component :=
  match r with
  | (Finished o, w) =>
      mkComponent (isReady cmp) (model cmp) (context2DRef cmp) (imageIndex cmp)
                  w inflight' (settled cmp ++ [o])
  | (Waiting s, w) =>
      mkComponent (isReady cmp) (model cmp) (context2DRef cmp) (imageIndex cmp)
                  w (inflight' ++ [s]) (settled cmp)
  end.

(** A call of [handleImage imageUrl]. *)
Definition request (env : oracle) (imageUrl : string) (cmp : Component) : Component :=
  after_advance cmp (inflight cmp)
    (advance env (handleImage (model cmp) (context2DRef cmp) imageUrl) (world cmp)).

(** Lines 183-187: the button exists only when [isReady]; pressing it calls
    [handleImage(IMAGES[imageIndex])]. *)
Definition press (env : oracle) (cmp : Component) : Component :=
  if isReady cmp then
    request env (default ""%string (IMAGES !! imageIndex cmp)) cmp
  else cmp.

(** Lines 153-164: the index moves by [diff] unless that leaves the list of
    images. *)
Definition updateImageIndex (diff : Z) (cmp : Component) : Component :=
  let v := imageIndex cmp in
  let nextVal := (Z.of_nat v + diff)%Z in
  if (nextVal <? 0)%Z then cmp
  else if (nextVal >=? Z.of_nat (length IMAGES))%Z then cmp
  else mkComponent (isReady cmp) (model cmp) (context2DRef cmp)
                   (Z.to_nat nextVal) (world cmp) (inflight cmp) (settled cmp).

(** The promise awaited by the [n]-th suspended run settles. *)
Definition settle (env : oracle) (n : nat) (cmp : Component) : Component :=
  match inflight cmp !! n with
  | None => cmp
  | Some s =>
      let rest := delete n (inflight cmp) in
      match answer env (trace (world cmp)) (awaited s) with
      | inl x =>
          after_advance cmp rest
            (advance env (resume s x) (effect (awaited s) (world cmp)))
      | inr e =>
          after_advance cmp rest (Finished (Rejected e), world cmp)
      end
  end.

(** The calls whose promises the suspended runs await. *)
Definition awaiting (cmp : Component) : list event :=
  (fun s => Called (awaited s)) <$> inflight cmp.

End Semantics.

(** ** Element types and collaborators used in the examples *)

(** Scores as integers, with exact comparison. *)
#[export] Instance ElemOps_Z : ElemOps Z := {|
  Tensor.of_uint8 b := Z.of_N (Byte.to_N b);
  Tensor.of_number x :=
    match x with
    | S754_finite s m e => cond_Zopp s (Z.shiftl (Zpos m) e)
    | _ => 0%Z
    end;
  Tensor.fdiv := Z.div;
  Tensor.fsub := Z.sub;
  Tensor.fltb := Z.ltb
|}.

(** IEEE 754 binary32, the [float32] dtype. *)
Definition binary32 : Type := spec_float.

#[export] Instance ElemOps_binary32 : ElemOps binary32 := {|
  Tensor.of_uint8 b := binary_normalize 24 128 (Z.of_N (Byte.to_N b)) 0 false;
  Tensor.of_number x :=
    match x with
    | S754_finite s m e => binary_round 24 128 s m e
    | _ => x
    end;
  Tensor.fdiv := SFdiv 24 128;
  Tensor.fsub := SFsub 24 128;
  Tensor.fltb := SFltb
|}.

(** Collaborators that never fail: the loader returns [image], the window
    is [windowWidth] wide and the model returns [output]. *)
Definition cooperative {F} (image : Image) (windowWidth : number)
    (output : option (DeepLabV3Result F)) : oracle (F := F) :=
  fun X _ c =>
    match c in call X return X + error with
    | ImageUtil_fromURL _ => inl image
    | Dimensions_get_window_width => inl windowWidth
    | model_forward _ _ => inl output
    | Alert_alert _ _ | setIsProcessing _ | ctx_clear | ctx_invalidate
    | ctx_save | ctx_scale _ _ | ctx_drawImage _ _ _ _ _
    | ctx_set_fillStyle _ | ctx_fillRect _ _ _ _ | ctx_restore => inl tt
    end.


Definition idle {F} : World (F := F) := mkWorld false Canvas.blank [].

(** Sample inputs: a 2 by 2 image, a three-class output for it, a one-pixel
    image with an output whose best class is 21, beyond the palette. *)
Definition loaded_model : Module := LoadedModule MODEL.

Definition sample_image : Image :=
  mkImage 2 2 [x00; x01; x02; x10; x11; x12; x20; x21; x22; x30; x31; x32]%byte.

Definition sample_output : DeepLabV3Result Z :=
  mkResult (Tensor.mkTensor [1; 3; 2; 2] [0; 5; 1; 7; 0; 5; 2; 3; 1; 9; 2; 7]%Z).

Definition pixel_image : Image := mkImage 1 1 [xff; x80; x00]%byte.


Definition window_400 : number := Number.of_nat 400.

(** The component once the model is loaded and the canvas mounted. *)
Definition ready_component : Component (F := Z) :=
  mkComponent true (Some loaded_model) (Some Context2D) 0 idle [] [].

(** ** What the claims are stated with *)

(** A tensor carries as many elements as its shape announces. *)
Definition well_formed {A} (t : Tensor A) : Prop :=
  length (Tensor.data t) = Tensor.numel (Tensor.shape t).


(** Scores that are totally ordered by [<], ties apart (no NaN). *)
Class OrderedScores (F : Type) `{ElemOps F} : Prop := {
  fltb_irrefl : forall x : F, Tensor.fltb x x = false;
  fltb_trans : forall x y z : F,
    Tensor.fltb x y = true -> Tensor.fltb y z = true -> Tensor.fltb x z = true;
  fltb_neg_trans : forall x y z : F,
    Tensor.fltb x y = false -> Tensor.fltb y z = false -> Tensor.fltb x z = false
}.


(** Every call a program can make satisfies [Q]. *)
Fixpoint all_calls {F R} (Q : event (F := F) -> Prop) (p : prog R) : Prop :=
  match p with
  | Ret _ | Throw _ => True
  | Do c k | Await c k => Q (Called c) /\ forall x, all_calls Q (k x)
  end.

(** The calls of the pixel loop. *)
Definition is_paint {F} (ev : event (F := F)) : Prop :=
  match ev with
  | Called c =>
      match c with
      | ctx_set_fillStyle _ | ctx_fillRect _ _ _ _ => True
      | _ => False
      end
  end.

(** What the pixel loop leaves alone: the processing flag, the transform
    and its stack, and what is on screen. *)
Definition same_frame {F} (w w' : World (F := F)) : Prop :=
  isProcessing w' = isProcessing w /\
  Canvas.transform (canvas w') = Canvas.transform (canvas w) /\
  Canvas.saved (canvas w') = Canvas.saved (canvas w) /\
  Canvas.displayed (canvas w') = Canvas.displayed (canvas w).

(** The overlay as the spec words it: in row-major order, for every pixel
    [(i, j)] whose mask entry is not 0, one unit rectangle at [(j, i)]
    filled with [PALETTE[mask[i][j]]]; nothing for the other pixels. *)
Definition overlay_pixel (transform : list (number * number))
    (colors : list nat) (width i j : nat) : list Canvas.command :=
  match colors !! (i * width + j) with
  | Some idx =>
      if decide (idx = 0) then []
      else [Canvas.FillRect transform (PALETTE !! idx) j i 1 1]
  | None => []
  end.

Definition overlay_row (transform : list (number * number))
    (colors : list nat) (width i : nat) : list Canvas.command :=
  flat_map (overlay_pixel transform colors width i) (seq 0 width).

Definition overlay (transform : list (number * number))
    (colors : list nat) (height width : nat) : list Canvas.command :=
  flat_map (overlay_row transform colors width) (seq 0 height).

(** A rectangle painted at [(x, y)]. *)
Definition rect_at (x y : nat) (cmd : Canvas.command) : bool :=
  match cmd with
  | Canvas.FillRect _ _ x' y' _ _ => bool_decide (x' = x /\ y' = y)
  | Canvas.DrawImage _ _ _ _ _ _ => false
  end.

(** A program that, when it returns, has queued the commands [cmds] (which
    may depend on the transform in force) and kept the frame. *)
Definition paints {F} `{ElemOps F} (p : prog (F := F) unit)
    (cmds : list (number * number) -> list Canvas.command) : Prop :=
  forall env w w',
    exec env p w = (Returned tt, w') ->
    same_frame w w' /\
    Canvas.pending (canvas w') =
      Canvas.pending (canvas w) ++ cmds (Canvas.transform (canvas w)).

(** ** The rest of the component *)
Section Interface.
Context {F : Type} `{ElemOps F}.

(** Lines 76-80: the component as it is mounted, with what [useModel]
    returned: no run in flight, no drawing context yet, the first image
    selected. *)
Definition mounted (isReady : bool) (model : option Module) : Component (F := F) :=
  mkComponent isReady model None 0 idle [] [].

(** Lines 192-194: the canvas hands over its drawing context. *)
Definition onContext2D (ctx : CanvasRenderingContext2D)
    (cmp : Component (F := F)) : Component :=
  mkComponent (isReady cmp) (model cmp) (Some ctx) (imageIndex cmp)
              (world cmp) (inflight cmp) (settled cmp).

(** Lines 169-180: the buttons "Prev" and "Next". *)
Definition pressPrev (cmp : Component (F := F)) : Component :=
  updateImageIndex (-1) cmp.
Definition pressNext (cmp : Component (F := F)) : Component :=
  updateImageIndex 1 cmp.

(** What can happen to the mounted component: a button is pressed, the
    canvas hands over its context, or an awaited promise settles. *)
Inductive step (env : oracle) : Component (F := F) -> Component -> Prop :=
  | step_press cmp : step env cmp (press env cmp)
  | step_prev cmp : step env cmp (pressPrev cmp)
  | step_next cmp : step env cmp (pressNext cmp)
  | step_context ctx cmp : step env cmp (onContext2D ctx cmp)
  | step_settle n cmp : step env cmp (settle env n cmp).

(** A fetch asks for one of [IMAGES]. *)
Definition fetches_sample (ev : event (F := F)) : Prop :=
  match ev with
  | Called c =>
      match c with
      | ImageUtil_fromURL url => url ∈ IMAGES
      | _ => True
      end
  end.

(** A call to the drawing surface. *)
Definition is_canvas_call (ev : event (F := F)) : Prop :=
  match ev with
  | Called c =>
      match c with
      | ctx_clear | ctx_invalidate | ctx_save | ctx_scale _ _
      | ctx_drawImage _ _ _ _ _ | ctx_set_fillStyle _ | ctx_fillRect _ _ _ _
      | ctx_restore => True
      | _ => False
      end
  end.

(** The value known for the processing flag after a call: [b] tells that
    the flag is known to be false. *)
Definition idle_after {X} (c : call (F := F) X) (b : bool) : bool :=
  match c with
  | setIsProcessing v => negb v
  | _ => b
  end.

(** Whenever the program returns, the processing flag is false: known so
    now ([b]) or reset since; nothing is known across an [await]. *)
Fixpoint ends_idle (b : bool) (p : prog (F := F) unit) : Prop :=
  match p with
  | Ret _ => b = true
  | Throw _ => True
  | Do c k => forall x, ends_idle (idle_after c b) (k x)
  | Await c k => forall x, ends_idle false (k x)
  end.





(** What holds of the component whatever happens to it. *)
Definition component_inv (cmp : Component (F := F)) : Prop :=
  imageIndex cmp < length IMAGES /\
  Forall fetches_sample (trace (world cmp)) /\
  Forall (fun s => forall x, all_calls fetches_sample (resume s x) /\
                             ends_idle false (resume s x))
         (inflight cmp) /\
  (model cmp = None -> isProcessing (world cmp) = false /\ inflight cmp = []).

End Interface.


(** ** Lists and offsets *)

Lemma omap_lookup_total {A B} (f : A -> option B) (l : list A) (i : nat) :
  (forall x, x ∈ l -> is_Some (f x)) ->
  omap f l !! i = l !! i ≫= f.
Proof.
  revert i. induction l as [|a l IH]; intros i Hall; [done|].
  destruct (Hall a) as [b Hb]; [left|].
  cbn [omap list_omap]. rewrite Hb.
  destruct i as [|i]; cbn; [by rewrite Hb|].
  apply IH. intros x Hx. apply Hall. by right.
Qed.

Lemma omap_length_total {A B} (f : A -> option B) (l : list A) :
  (forall x, x ∈ l -> is_Some (f x)) ->
  length (omap f l) = length l.
Proof.
  induction l as [|a l IH]; intros Hall; [done|].
  destruct (Hall a) as [b Hb]; [left|].
  cbn [omap list_omap]. rewrite Hb. cbn. f_equal.
  apply IH. intros x Hx. apply Hall. by right.
Qed.

Lemma offset_bound (H W n i j c : nat) :
  i < H -> j < W -> c < n -> i * (W * n) + (j * n + c) < H * (W * n).
Proof.
  intros Hi Hj Hc.
  assert ((i + 1) * (W * n) <= H * (W * n)) by (apply Nat.mul_le_mono_r; lia).
  assert ((j + 1) * n <= W * n) by (apply Nat.mul_le_mono_r; lia).
  lia.
Qed.

Lemma ravel_lt (sh idx : list nat) :
  Tensor.in_bounds sh idx -> Tensor.ravel sh idx < Tensor.numel sh.
Proof.
  unfold Tensor.in_bounds. induction 1 as [|i n idx sh Hi _ IH]; cbn; [lia|].
  fold (Tensor.numel sh). nia.
Qed.

Lemma unravel_ravel (sh idx : list nat) :
  Tensor.in_bounds sh idx -> Tensor.unravel sh (Tensor.ravel sh idx) = idx.
Proof.
  intros Hb. pose proof Hb as Hb'. revert Hb'. unfold Tensor.in_bounds in Hb.
  induction Hb as [|i n idx sh Hi Hrest IH]; intros Hb'; [done|].
  cbn [Tensor.ravel Tensor.unravel].
  pose proof (ravel_lt sh idx Hrest) as Hlt.
  assert (Tensor.numel sh <> 0) by lia.
  rewrite Nat.div_add_l, Nat.div_small, Nat.add_0_r by done.
  rewrite Nat.add_comm, Nat.Div0.mod_add, Nat.mod_small by done.
  f_equal. by apply IH.
Qed.

(** ** The scan of a column of scores *)
Section Argmax.
Context {F : Type} {ops : ElemOps F} {ord : OrderedScores F}.






End Argmax.

(** ** C1: the mask decoder *)
Section Decode.
Context {F : Type} {ops : ElemOps F} {ord : OrderedScores F}.




End Decode.

(** ** C2: the input tensor *)
Section Preprocess.
Context {F : Type} {ops : ElemOps F}.

Lemma permute_source_201 (c i j : nat) :
  Tensor.permute_source [2; 0; 1] [c; i; j] = [i; j; c].
Proof. reflexivity. Qed.

Lemma unravel_3 (n H W k : nat) :
  k < n * (H * W) ->
  exists c i j, Tensor.unravel [n; H; W] k = [c; i; j] /\ c < n /\ i < H /\ j < W.
Proof.
  intros Hk.
  assert (HW : H * W <> 0) by nia. assert (Hw : W <> 0) by nia.
  exists (k / (H * W)), (k mod (H * W) / W), (k mod (H * W) mod W).
  split; [|split; [|split]].
  - cbn [Tensor.unravel Tensor.numel foldr]. by rewrite !Nat.mul_1_r, Nat.div_1_r.
  - apply Nat.Div0.div_lt_upper_bound. lia.
  - apply Nat.Div0.div_lt_upper_bound. rewrite (Nat.mul_comm W H).
    by apply Nat.mod_upper_bound.
  - by apply Nat.mod_upper_bound.
Qed.

Lemma permute_201_lookup {A} (t : Tensor A) (H W n c i j : nat) :
  Tensor.shape t = [H; W; n] -> well_formed t ->
  c < n -> i < H -> j < W ->
  Tensor.get (Tensor.permute [2; 0; 1] t) [c; i; j] = Tensor.get t [i; j; c].
Proof.
  intros Hsh Hwf Hc Hi Hj. unfold Tensor.permute. rewrite Hsh.
  cbn [fmap list_fmap lookup list_lookup default from_option id].
  unfold Tensor.get at 1. cbn [Tensor.shape Tensor.data].
  rewrite omap_lookup_total.
  - assert (Hb : Tensor.in_bounds [n; H; W] [c; i; j]) by (repeat constructor; done).
    rewrite lookup_seq_lt by apply (ravel_lt _ _ Hb). cbn [mbind option_bind].
    rewrite Nat.add_0_l, (unravel_ravel _ _ Hb). by rewrite permute_source_201.
  - intros k [_ Hk]%elem_of_seq.
    destruct (unravel_3 n H W k) as (c' & i' & j' & -> & Hc' & Hi' & Hj').
    { cbn in Hk. by rewrite Nat.mul_1_r in Hk. }
    rewrite permute_source_201. apply lookup_lt_is_Some.
    rewrite Hwf, Hsh. cbn. rewrite !Nat.mul_1_r, Nat.add_0_r.
    by apply offset_bound.
Qed.

Lemma permute_201_well_formed {A} (t : Tensor A) (H W n : nat) :
  Tensor.shape t = [H; W; n] -> well_formed t ->
  Tensor.shape (Tensor.permute [2; 0; 1] t) = [n; H; W] /\
  well_formed (Tensor.permute [2; 0; 1] t).
Proof.
  intros Hsh Hwf. unfold well_formed, Tensor.permute. rewrite Hsh.
  cbn [fmap list_fmap lookup list_lookup default from_option id Tensor.shape Tensor.data].
  split; [done|]. rewrite omap_length_total; [apply length_seq|].
  intros k [_ Hk]%elem_of_seq.
  destruct (unravel_3 n H W k) as (c' & i' & j' & -> & Hc' & Hi' & Hj').
  { cbn in Hk. by rewrite Nat.mul_1_r in Hk. }
  rewrite permute_source_201. apply lookup_lt_is_Some.
  rewrite Hwf, Hsh. cbn. rewrite !Nat.mul_1_r, Nat.add_0_r.
  by apply offset_bound.
Qed.

(** C2. For an image of [H] by [W] pixels with three bytes per pixel, the
    input tensor has shape [[1; 3; H; W]] and its element of channel [c] at
    pixel [(i, j)] is the byte at [(i, j, c)] of the blob, cast to float,
    divided by 255, less [mean[c]] and divided by [std[c]], with
    [mean = [0.485, 0.456, 0.406]] and [std = [0.229, 0.224, 0.225]]. *)
Theorem preprocess_normalized (image : Image) :
  length (toBlob image) = getHeight image * getWidth image * 3 ->
  normalize_mean =
    [Number.decimal 485 1000; Number.decimal 456 1000; Number.decimal 406 1000] /\
  normalize_std =
    [Number.decimal 229 1000; Number.decimal 224 1000; Number.decimal 225 1000] /\
  Tensor.shape (preprocess (F := F) image) = [1; 3; getHeight image; getWidth image] /\
  well_formed (preprocess (F := F) image) /\
  forall c i j, c < 3 -> i < getHeight image -> j < getWidth image ->
    exists b mean std,
      toBlob image !! ((i * getWidth image + j) * 3 + c) = Some b /\
      normalize_mean !! c = Some mean /\
      normalize_std !! c = Some std /\
      Tensor.get (preprocess (F := F) image) [0; c; i; j] =
        Some (Tensor.fdiv
                (Tensor.fsub
                   (Tensor.fdiv (Tensor.of_uint8 b)
                                (Tensor.of_number (Number.of_Z 255)))
                   (Tensor.of_number mean))
                (Tensor.of_number std)).
Proof.
  destruct image as [W H blob]. cbn [getWidth getHeight toBlob]. intros Hlen.
  do 2 (split; [reflexivity|]).
  unfold preprocess. cbn [getWidth getHeight toBlob].
  set (t0 := Tensor.div _ _).
  assert (Hsh0 : Tensor.shape t0 = [H; W; 3]) by reflexivity.
  assert (Hwf0 : well_formed t0).
  { unfold well_formed, t0. cbn. rewrite !length_fmap, Hlen. lia. }
  assert (Hget0 : forall k,
             Tensor.data t0 !! k =
             (fun b => Tensor.fdiv (Tensor.of_uint8 b)
                         (Tensor.of_number (Number.of_Z 255))) <$> blob !! k).
  { intros k. unfold t0. cbn [Tensor.div Tensor.to_float32 Tensor.fromBlob Tensor.data].
    by rewrite !list_lookup_fmap, <- option_fmap_compose. }
  clearbody t0.
  destruct (permute_201_well_formed t0 H W 3 Hsh0 Hwf0) as [Hsh1 Hwf1].
  assert (Hperm := fun c i j => permute_201_lookup t0 H W 3 c i j Hsh0 Hwf0).
  set (t1 := Tensor.permute [2; 0; 1] t0) in *. clearbody t1.
  unfold Tensor.unsqueeze0, Tensor.normalize.
  cbn [Tensor.shape Tensor.data]. rewrite Hsh1.
  split; [done|]. split.
  { unfold well_formed in *. cbn [Tensor.shape Tensor.data].
    rewrite length_imap, Hwf1, Hsh1. cbn. lia. }
  intros c i j Hc Hi Hj.
  assert (Hoff : (i * W + j) * 3 + c < length blob) by nia.
  destruct (lookup_lt_is_Some_2 blob _ Hoff) as [b Hb].
  destruct (lookup_lt_is_Some_2 normalize_mean c) as [mean Hmean]; [done|].
  destruct (lookup_lt_is_Some_2 normalize_std c) as [std Hstd]; [done|].
  exists b, mean, std. do 3 (split; [done|]).
  specialize (Hperm c i j Hc Hi Hj).
  unfold Tensor.get in *. rewrite Hsh0, Hsh1 in Hperm.
  cbn [Tensor.shape Tensor.data Tensor.ravel tail].
  rewrite Nat.mul_0_l, Nat.add_0_l.
  change (c * Tensor.numel [H; W] + (i * Tensor.numel [W] + (j * Tensor.numel [] + 0)))
    with (Tensor.ravel [3; H; W] [c; i; j]).
  rewrite list_lookup_imap, Hperm.
  assert (Hchan : Tensor.ravel [3; H; W] [c; i; j] / Tensor.numel [H; W] = c).
  { cbn. rewrite Nat.div_add_l by nia. rewrite Nat.div_small by nia. lia. }
  rewrite Hchan, Hmean, Hstd, Hget0.
  replace (Tensor.ravel [H; W; 3] [i; j; c]) with ((i * W + j) * 3 + c) by (cbn; lia).
  by rewrite Hb.
Qed.

End Preprocess.

(** ** Runs: sequencing, frames and failed steps *)
Section Runs.
Context {F : Type} {ops : ElemOps F}.
Implicit Types (env : oracle (F := F)) (w : World (F := F)).

Lemma exec_bind {A B} env (p : prog A) (f : A -> prog B) w :
  exec env (bind p f) w =
  match exec env p w with
  | (Returned a, w1) => exec env (f a) w1
  | (Rejected e, w1) => (Rejected e, w1)
  end.
Proof.
  revert w. induction p as [a|e|X c k IH|X c k IH]; intros w; cbn; try done;
    by destruct (answer env _ c).
Qed.

Lemma exec_do {X} env (c : call X) w :
  exec env (do_ c) w =
  match answer env (trace w ++ [Called c]) c with
  | inl x => (Returned x, effect c (issue c w))
  | inr e => (Rejected e, issue c w)
  end.
Proof. reflexivity. Qed.

(** A run alone: up to its next [await], then on from the settlement. *)
Lemma exec_advance env (p : prog unit) w :
  exec env p w =
  match advance env p w with
  | (Finished o, w') => (o, w')
  | (Waiting s, w') =>
      match answer env (trace w') (awaited s) with
      | inl x => exec env (resume s x) (effect (awaited s) w')
      | inr e => (Rejected e, w')
      end
  end.
Proof.
  revert w. induction p as [a|e|X c k IH|X c k IH]; intros w; cbn; try done.
  destruct (answer env _ c); [apply IH|done].
Qed.

(** The selected image stays one of [IMAGES], so the button always passes
    an image of the list. *)
Lemma updateImageIndex_in_bounds (diff : Z) (cmp : Component (F := F)) :
  imageIndex cmp < length IMAGES ->
  imageIndex (updateImageIndex diff cmp) < length IMAGES.
Proof.
  intros Hlt. unfold updateImageIndex.
  destruct (Z.ltb_spec (Z.of_nat (imageIndex cmp) + diff) 0); [done|].
  destruct (Z.geb_spec (Z.of_nat (imageIndex cmp) + diff) (Z.of_nat (length IMAGES)));
    [done|]. cbn [imageIndex]. lia.
Qed.

Lemma trace_effect {X} (c : call X) w : trace (effect c w) = trace w.
Proof. by destruct c. Qed.

Lemma same_frame_refl w : same_frame w w.
Proof. by repeat split. Qed.

Lemma same_frame_trans w1 w2 w3 :
  same_frame w1 w2 -> same_frame w2 w3 -> same_frame w1 w3.
Proof. unfold same_frame. intros (-> & -> & -> & ->) (-> & -> & -> & ->). done. Qed.

Lemma same_frame_issue {X} (c : call X) w : same_frame w (issue c w).
Proof. by repeat split. Qed.

Lemma same_frame_paint {X} (c : call X) w :
  is_paint (Called c) -> same_frame w (effect c w).
Proof. destruct c; cbn; try done; intros _; by repeat split. Qed.

(** A program that only paints keeps the frame, however it ends. *)
Lemma exec_paint_frame {R} env (p : prog R) w :
  all_calls is_paint p -> same_frame w (exec env p w).2.
Proof.
  revert w. induction p as [a|e|X c k IH|X c k IH]; intros w Hp; cbn;
    try apply same_frame_refl.
  all: destruct Hp as [Hc Hk]; destruct (answer env _ c) as [x|e]; cbn.
  all: try apply same_frame_issue.
  all: eapply same_frame_trans; [|apply IH, Hk].
  all: eapply same_frame_trans; [apply (same_frame_issue c)|by apply same_frame_paint].
Qed.

Lemma all_calls_bind {A B} (Q : event (F := F) -> Prop) (p : prog A) (f : A -> prog B) :
  all_calls Q p -> (forall a, all_calls Q (f a)) -> all_calls Q (bind p f).
Proof.
  intros Hp Hf. induction p as [a|e|X c k IH|X c k IH]; cbn in *; try done;
    destruct Hp; split; auto.
Qed.

Lemma all_calls_for_each {A} (Q : event (F := F) -> Prop) (l : list A) (body : A -> prog unit) :
  (forall x, all_calls Q (body x)) -> all_calls Q (for_each l body).
Proof.
  intros Hb. induction l as [|x l IH]; cbn; [done|].
  by apply all_calls_bind.
Qed.

(** The calls of a run extend the trace; a call that fails is the last one,
    and its error is the outcome of the run. *)
Lemma exec_failed_step {R} env (p : prog R) w :
  exists tr',
    trace (exec env p w).2 = trace w ++ tr' /\
    forall tr ev rest e,
      tr' = tr ++ ev :: rest ->
      failure env (trace w ++ tr) ev = Some e ->
      (exec env p w).1 = Rejected e /\ rest = [].
Proof.
  revert w. induction p as [a|e|X c k IH|X c k IH]; intros w; cbn.
  1,2: exists []; split; [by rewrite app_nil_r|]; by intros [|??] ????.
  all: destruct (answer env (trace w ++ [Called c]) c) as [x|e0] eqn:Hans; cbn.
  1,3: destruct (IH x (effect c (issue c w))) as (tr' & Htr & Hfail);
       exists (Called c :: tr'); rewrite Htr, trace_effect; cbn;
       split; [by rewrite <- app_assoc|];
       intros [|ev0 tr] ev rest e Heq Hf; cbn in Heq;
       [injection Heq as <- <-; rewrite app_nil_r in Hf; cbn in Hf; by rewrite Hans in Hf
       |injection Heq as <- ->; apply (Hfail tr ev rest e eq_refl);
        rewrite trace_effect; cbn; by rewrite <- app_assoc].
  all: exists [Called c]; split; [done|];
       intros [|ev0 tr] ev rest e Heq Hf; cbn in Heq;
       [injection Heq as <- <-; rewrite app_nil_r in Hf; cbn in Hf;
        rewrite Hans in Hf; by injection Hf as ->
       |injection Heq as _ Heq; by destruct tr].
Qed.

End Runs.

(** ** The pixel loop *)
Section Paint.
Context {F : Type} {ops : ElemOps F}.
Implicit Types (env : oracle (F := F)) (w : World (F := F)).

Lemma paint_pixel_calls (colors : list nat) (width i j : nat) :
  all_calls (F := F) is_paint (paint_pixel colors width i j).
Proof.
  unfold paint_pixel. destruct (colors !! _) as [idx|]; [|done].
  destruct (0 <? idx); cbn; auto.
Qed.

Lemma paint_mask_calls (max : option (Tensor nat)) (height width : nat) :
  all_calls (F := F) is_paint (paint_mask max height width).
Proof.
  destruct max as [max|]; [|done]. cbn.
  apply all_calls_for_each. intros i. apply all_calls_for_each. intros j.
  apply paint_pixel_calls.
Qed.

Lemma paints_pixel (colors : list nat) (width i j : nat) :
  paints (F := F) (paint_pixel colors width i j)
         (fun tf => overlay_pixel tf colors width i j).
Proof.
  intros env w w'. unfold paint_pixel, overlay_pixel.
  destruct (colors !! _) as [idx|].
  2: { cbn. intros [= <-]. split; [apply same_frame_refl|by rewrite app_nil_r]. }
  destruct (Nat.ltb_spec 0 idx) as [Hpos|Hzero].
  2: { rewrite decide_True by lia. cbn. intros [= <-].
       split; [apply same_frame_refl|by rewrite app_nil_r]. }
  rewrite decide_False by lia. cbn.
  repeat match goal with
         | |- context [env ?X ?tr ?c] => destruct (env X tr c) as [[]|?]; [|done]
         end.
  intros [= <-]. cbn. by repeat split.
Qed.

Lemma paints_for_each {A} (l : list A) (body : A -> prog unit)
    (g : list (number * number) -> A -> list Canvas.command) :
  (forall x, paints (body x) (fun tf => g tf x)) ->
  paints (for_each l body) (fun tf => flat_map (g tf) l).
Proof.
  intros Hbody. induction l as [|x l IH]; intros env w w'; cbn [for_each flat_map].
  - cbn. intros [= <-]. split; [apply same_frame_refl|by rewrite app_nil_r].
  - rewrite exec_bind. destruct (exec env (body x) w) as [[[]|e] w1] eqn:Hx; [|done].
    intros Hrest. apply Hbody in Hx as [Hf1 Hp1]. apply IH in Hrest as [Hf2 Hp2].
    split; [by eapply same_frame_trans|].
    destruct Hf1 as (_ & Htf & _). by rewrite Hp2, Hp1, Htf, <- app_assoc.
Qed.

Lemma paints_mask (mask : Tensor nat) (height width : nat) :
  paints (F := F) (paint_mask (Some mask) height width)
         (fun tf => overlay tf (Tensor.data mask) height width).
Proof.
  unfold paint_mask, overlay.
  apply (paints_for_each _ _ (fun tf i => overlay_row tf (Tensor.data mask) width i)).
  intros i. unfold overlay_row.
  apply (paints_for_each _ _ (fun tf j => overlay_pixel tf (Tensor.data mask) width i j)).
  intros j. apply paints_pixel.
Qed.

End Paint.

(** ** Rendering and whole runs *)
Section Render.
Context {F : Type} {ops : ElemOps F}.
Implicit Types (env : oracle (F := F)) (w : World (F := F)).

Lemma exec_render env (ctx : CanvasRenderingContext2D) (image : Image)
    (max : option (Tensor nat)) w o w' :
  exec env (render (Some ctx) image max) w = (o, w') ->
  isProcessing w' = isProcessing w /\
  match o with
  | Rejected _ =>
      Canvas.displayed (canvas w') = Canvas.displayed (canvas w)
  | Returned _ =>
      exists windowWidth mask,
        env _ (trace w ++ [Called Dimensions_get_window_width])
              Dimensions_get_window_width = inl windowWidth /\
        max = Some mask /\
        let s := newScaleFactor (getHeight image) (getWidth image) windowWidth in
        let tf := (s, s) :: Canvas.transform (canvas w) in
        Canvas.pending (canvas w') =
          Canvas.pending (canvas w) ++
          Canvas.DrawImage tf image 0 0 (getWidth image) (getHeight image)
            :: overlay tf (Tensor.data mask) (getHeight image) (getWidth image) /\
        Canvas.displayed (canvas w') = Canvas.pending (canvas w') /\
        Canvas.transform (canvas w') = Canvas.transform (canvas w) /\
        Canvas.saved (canvas w') = Canvas.saved (canvas w)
  end.
Proof.
  unfold render. cbn [exec bind do_ await answer].
  destruct (env _ _ Dimensions_get_window_width) as [windowWidth|e] eqn:Hww.
  2: { intros [= <- <-]. done. }
  set (s := newScaleFactor _ _ _).
  destruct (env _ _ ctx_save) as [[]|e]; [|by intros [= <- <-]].
  destruct (env _ _ (ctx_scale _ _)) as [[]|e]; [|by intros [= <- <-]].
  destruct (env _ _ (ctx_drawImage _ _ _ _ _)) as [[]|e]; [|by intros [= <- <-]].
  rewrite exec_bind.
  match goal with |- context [exec env (paint_mask ?m ?h ?wd) ?w0] =>
    pose proof (exec_paint_frame env _ w0 (paint_mask_calls m h wd)) as Hframe;
    destruct (exec env (paint_mask m h wd) w0) as [[[]|e] w1] eqn:Hpm
  end.
  all: cbn [snd] in Hframe; destruct Hframe as (Hproc & Htf & Hsaved & Hdisp);
       cbn in Hproc, Htf, Hsaved, Hdisp.
  2: { intros [= <- <-]. done. }
  destruct max as [mask|]; [|done].
  apply paints_mask in Hpm as [_ Hpend]. cbn in Hpend.
  cbn [exec bind do_ await answer trace issue effect].
  destruct (env _ _ ctx_restore) as [[]|e]; [|by intros [= <- <-]].
  destruct (env _ _ ctx_invalidate) as [[]|e]; intros [= <- <-]; cbn.
  2: { unfold Canvas.restore. rewrite Hsaved. done. }
  split; [done|]. exists windowWidth, mask. do 2 (split; [done|]).
  unfold Canvas.restore. rewrite Hsaved. cbn. rewrite Hpend, <- app_assoc. done.
Qed.


Lemma exec_handleImage env (m : Module) (ctx : option CanvasRenderingContext2D)
    (url : string) w o w' :
  exec env (handleImage (Some m) ctx url) w = (o, w') ->
  match o with
  | Returned _ =>
      isProcessing w' = false /\
      Canvas.transform (canvas w') = Canvas.transform (canvas w) /\
      Canvas.saved (canvas w') = Canvas.saved (canvas w)
  | Rejected _ =>
      isProcessing w' = true /\
      (Canvas.displayed (canvas w') = Canvas.displayed (canvas w) \/
       Canvas.displayed (canvas w') = [])
  end.
Proof.
  unfold handleImage. destruct ctx as [ctx|].
  - cbn [exec bind do_ await answer trace issue effect].
    destruct (env _ _ ctx_clear) as [[]|e]; [|intros [= <- <-]; cbn; auto].
    destruct (env _ _ ctx_invalidate) as [[]|e]; [|intros [= <- <-]; cbn; auto].
    destruct (env _ _ (ImageUtil_fromURL _)) as [image|e]; [|intros [= <- <-]; cbn; auto].
    destruct (env _ _ (model_forward _ _)) as [output|e]; [|intros [= <- <-]; cbn; auto].
    rewrite exec_bind.
    match goal with |- context [exec env (render ?c ?i ?mx) ?w0] =>
      destruct (exec env (render c i mx) w0) as [[[]|e] w1] eqn:Hr;
      apply exec_render in Hr as [Hproc Hr]; cbn in Hproc
    end.
    + destruct Hr as (ww & mask & _ & _ & _ & _ & Htf & Hsaved).
      cbn in Htf, Hsaved. cbn. intros [= <- <-]. cbn. auto.
    + cbn in Hr. intros [= <- <-]. auto.
  - cbn [exec bind do_ await answer trace issue effect render].
    destruct (env _ _ (ImageUtil_fromURL _)) as [image|e]; [|intros [= <- <-]; cbn; auto].
    destruct (env _ _ (model_forward _ _)) as [output|e]; [|intros [= <- <-]; cbn; auto].
    intros [= <- <-]. cbn. auto.
Qed.



End Render.


(** ** Runs of [handleImage]: the claims *)
Section Claims.
Context {F : Type} {ops : ElemOps F}.
Implicit Types (env : oracle (F := F)) (w : World (F := F)).

(** C9. With [model] null, [handleImage] only raises the notice "Model not
    loaded" and returns, without awaiting anything: no image is fetched, no
    other call is made, and the processing flag and the drawing surface are
    as before. *)
Theorem model_not_ready_rejected env (ctx : option CanvasRenderingContext2D)
    (imageUrl : string) w :
  let notified :=
    mkWorld (isProcessing w) (canvas w)
      (trace w ++
       [Called (Alert_alert "Model not loaded" "The model has not been loaded yet")]) in
  exec env (handleImage None ctx imageUrl) w = (Returned tt, notified) /\
  advance env (handleImage None ctx imageUrl) w = (Finished (Returned tt), notified).
Proof. split; reflexivity. Qed.




End Claims.

(** ** C7: the overlay *)
Section Overlay.
Context {F : Type} {ops : ElemOps F}.
Implicit Types (env : oracle (F := F)) (w : World (F := F)).

Lemma filter_flat_map_single {A} (p : A -> bool) (g : nat -> list A)
    (k a n : nat) :
  (forall k', k' <> k -> List.filter p (g k') = []) ->
  List.filter p (flat_map g (seq a n)) =
  if decide (a <= k < a + n) then List.filter p (g k) else [].
Proof.
  intros Hother. revert a. induction n as [|n IH]; intros a.
  - cbn. by rewrite decide_False by lia.
  - cbn [seq flat_map]. rewrite List.filter_app, IH.
    destruct (decide (a = k)) as [->|Hne]; [|rewrite (Hother a Hne)];
      repeat case_decide; try lia; cbn; try done.
    apply app_nil_r.
Qed.

Lemma filter_overlay_pixel tf (colors : list nat) (width i j i' j' : nat) :
  List.filter (rect_at j i) (overlay_pixel tf colors width i' j') =
  if decide (i' = i /\ j' = j) then overlay_pixel tf colors width i j else [].
Proof.
  unfold overlay_pixel. destruct (decide (i' = i /\ j' = j)) as [[-> ->]|Hne].
  - destruct (colors !! _) as [idx|]; [|done]. destruct (decide (idx = 0)); [done|].
    cbn. by rewrite bool_decide_eq_true_2.
  - destruct (colors !! _) as [idx|]; [|done]. destruct (decide (idx = 0)); [done|].
    cbn. rewrite bool_decide_eq_false_2; [done|]. tauto.
Qed.

Lemma filter_overlay tf (colors : list nat) (height width i j : nat) :
  i < height -> j < width ->
  List.filter (rect_at j i) (overlay tf colors height width) =
  overlay_pixel tf colors width i j.
Proof.
  intros Hi Hj. unfold overlay.
  rewrite (filter_flat_map_single _ _ i).
  - rewrite decide_True by lia. unfold overlay_row.
    rewrite (filter_flat_map_single _ _ j).
    + rewrite decide_True by lia. rewrite filter_overlay_pixel.
      by rewrite decide_True.
    + intros j' Hne. rewrite filter_overlay_pixel. by rewrite decide_False by tauto.
  - intros i' Hne. unfold overlay_row.
    rewrite (filter_flat_map_single _ _ j).
    + destruct (decide _); [|done]. rewrite filter_overlay_pixel.
      by rewrite decide_False by tauto.
    + intros j' _. rewrite filter_overlay_pixel. by rewrite decide_False by tauto.
Qed.

Lemma overlay_background tf (colors : list nat) (height width : nat) :
  (forall idx, idx ∈ colors -> idx = 0) ->
  overlay tf colors height width = [].
Proof.
  intros Hzero. unfold overlay.
  assert (Hrow : forall i, overlay_row tf colors width i = []).
  { intros i. unfold overlay_row. induction (seq 0 width) as [|j l IH]; [done|].
    cbn. rewrite IH, app_nil_r. unfold overlay_pixel.
    destruct (colors !! _) as [idx|] eqn:Hidx; [|done].
    rewrite decide_True; [done|]. apply Hzero. by eapply list_elem_of_lookup_2. }
  induction (seq 0 height) as [|i l IH]; [done|]. cbn. by rewrite Hrow, IH.
Qed.

(** C7. A completed render of a mask puts on the surface, after what was
    queued, the image and then the overlay, both under the scale
    [newScaleFactor]: for every pixel [(i, j)] of the
    [H] by [W] grid the commands at [(j, i)] are exactly one unit rectangle
    filled with [PALETTE[mask[i][j]]] when [mask[i][j]] is not 0, and none
    when it is 0; for an all-zero mask only the image is drawn. *)
Theorem render_paints_overlay env (ctx : CanvasRenderingContext2D)
    (image : Image) (mask : Tensor nat) w w' :
  exec env (render (Some ctx) image (Some mask)) w = (Returned tt, w') ->
  exists windowWidth,
    env _ (trace w ++ [Called Dimensions_get_window_width])
          Dimensions_get_window_width = inl windowWidth /\
    let s := newScaleFactor (getHeight image) (getWidth image) windowWidth in
    let tf := (s, s) :: Canvas.transform (canvas w) in
    Canvas.displayed (canvas w') =
      Canvas.pending (canvas w) ++
      Canvas.DrawImage tf image 0 0 (getWidth image) (getHeight image)
        :: overlay tf (Tensor.data mask) (getHeight image) (getWidth image) /\
    (forall i j idx,
       i < getHeight image -> j < getWidth image ->
       Tensor.data mask !! (i * getWidth image + j) = Some idx ->
       List.filter (rect_at j i)
         (overlay tf (Tensor.data mask) (getHeight image) (getWidth image)) =
       if decide (idx = 0) then []
       else [Canvas.FillRect tf (PALETTE !! idx) j i 1 1]) /\
    ((forall idx, idx ∈ Tensor.data mask -> idx = 0) ->
     Canvas.rectangles (Canvas.displayed (canvas w')) =
       Canvas.rectangles (Canvas.pending (canvas w)) /\
     Canvas.displayed (canvas w') =
       Canvas.pending (canvas w) ++
       [Canvas.DrawImage tf image 0 0 (getWidth image) (getHeight image)]).
Proof.
  intros Hrun. apply exec_render in Hrun as [_ (ww & mask' & Hww & [= <-] & Hrest)].
  cbn zeta in Hrest. destruct Hrest as (Hpend & Hdisp & _).
  exists ww. split; [done|]. cbn zeta.
  split; [by rewrite Hdisp, Hpend|]. split.
  - intros i j idx Hi Hj Hidx. rewrite filter_overlay by done.
    unfold overlay_pixel. by rewrite Hidx.
  - intros Hzero. rewrite Hdisp, Hpend, overlay_background by done.
    split; [|done]. unfold Canvas.rectangles.
    by rewrite omap_app, app_nil_r.
Qed.

End Overlay.

(** ** C6 and C4: what the callback does not check *)
Section Unchecked.
Context {F : Type} {ops : ElemOps F}.
Implicit Types (env : oracle (F := F)) (w : World (F := F)).


(** C4 (amended). [handleImage] does not read the processing flag: whatever
    its value and whatever runs are in flight, pressing the button with the
    model loaded starts a run at once, which sets the flag and is suspended
    at its first [await] alongside the runs already in flight; none of them
    is cancelled and nothing is queued. *)
Theorem press_starts_concurrent_run env (cmp : Component (F := F)) (m : Module) :
  isReady cmp = true ->
  model cmp = Some m ->
  context2DRef cmp = None \/
  env _ (trace (world cmp) ++ [Called (setIsProcessing true); Called ctx_clear])
        ctx_clear = inl tt ->
  exists s tr,
    inflight (press env cmp) = inflight cmp ++ [s] /\
    settled (press env cmp) = settled cmp /\
    isProcessing (world (press env cmp)) = true /\
    trace (world (press env cmp)) =
      trace (world cmp) ++ Called (setIsProcessing true) :: tr.
Proof.
  intros Hready Hmodel Hclear. unfold press, request. rewrite Hready, Hmodel.
  unfold handleImage. destruct (context2DRef cmp) as [ctx|].
  - destruct Hclear as [|Hclear]; [done|].
    cbn [advance bind do_ await answer trace issue effect].
    rewrite <- ?app_assoc. cbn [app]. rewrite Hclear.
    cbn. do 2 eexists. repeat split. by rewrite <- !app_assoc.
  - cbn. do 2 eexists. repeat split. by rewrite <- !app_assoc.
Qed.

End Unchecked.

(** ** C8: the scale factor *)
Section Scale.
Context {F : Type} {ops : ElemOps F}.
Implicit Types (env : oracle (F := F)) (w : World (F := F)).

Lemma div_eucl_shiftl (m : positive) (s : Z) :
  (0 <= s)%Z ->
  Z.div_eucl (Z.shiftl (Zpos m) s) (Zpos m) = (2 ^ s, 0)%Z.
Proof.
  intros Hs. rewrite Z.shiftl_mul_pow2 by done.
  pose proof (Z.div_mul (2 ^ s) (Zpos m)) as Hq.
  pose proof (Z.mod_mul (2 ^ s) (Zpos m)) as Hr.
  unfold Z.div, Z.modulo in Hq, Hr. rewrite (Z.mul_comm (Zpos m)).
  destruct (Z.div_eucl (2 ^ s * Zpos m) (Zpos m)) as [q r].
  rewrite Hq, Hr by done. done.
Qed.

Lemma new_location_exact (m : Z) : new_location m 0 = loc_Exact.
Proof. unfold new_location. by destruct (Z.even m). Qed.

(** A finite non-zero number divided by itself is exactly 1. *)
Lemma div_self (x : number) :
  Number.is_finite_nonzero x = true -> Number.div x x = Number.one.
Proof.
  destruct x as [| | |s m e]; try done. intros _.
  unfold Number.div, SFdiv, SFdiv_core_binary.
  rewrite !Z.sub_diag.
  change (Z.min (fexp Number.prec Number.emax 0) 0) with (-53)%Z.
  change (0 - -53)%Z with 53%Z.
  cbv iota.
  change (IntDef.Z.div_eucl _ _) with (Z.div_eucl (Z.shiftl (Zpos m) 53) (Zpos m)).
  rewrite (div_eucl_shiftl m 53) by done.
  rewrite new_location_exact. by destruct s.
Qed.

Lemma digits2_pos_lower (p : positive) :
  (2 ^ (Zpos (digits2_pos p) - 1) <= Zpos p)%Z.
Proof.
  induction p as [p IH|p IH|]; cbn [digits2_pos]; [| |done].
  all: rewrite Pos2Z.inj_succ;
       replace (Z.succ (Zpos (digits2_pos p)) - 1)%Z
         with (Z.succ (Zpos (digits2_pos p) - 1)) by lia;
       rewrite Z.pow_succ_r by lia; lia.
Qed.

Lemma digits2_pos_bound (p : positive) (k : Z) :
  (Zpos p < 2 ^ k)%Z -> (Zpos (digits2_pos p) <= k)%Z.
Proof.
  intros Hp. pose proof (digits2_pos_lower p) as Hlow.
  destruct (Z_le_gt_dec (Zpos (digits2_pos p)) k) as [|Hgt]; [done|].
  assert (0 <= k)%Z.
  { destruct (Z_le_gt_dec 0 k); [done|]. rewrite Z.pow_neg_r in Hp by lia. lia. }
  assert (2 ^ k <= 2 ^ (Zpos (digits2_pos p) - 1))%Z by (apply Z.pow_le_mono_r; lia).
  lia.
Qed.

Lemma digits2_pos_iter_xO (p k : positive) :
  Zpos (digits2_pos (Pos.iter xO p k)) = (Zpos (digits2_pos p) + Zpos k)%Z.
Proof.
  induction k as [|k IH] using Pos.peano_ind.
  - cbn. lia.
  - rewrite Pos.iter_succ. cbn [digits2_pos]. lia.
Qed.

Lemma binary_round_aux_canonical (s : bool) (m : positive) (e : Z) :
  fexp Number.prec Number.emax (Zpos (digits2_pos m) + e) = e ->
  (e <= Number.emax - Number.prec)%Z ->
  binary_round_aux Number.prec Number.emax s (Zpos m) e loc_Exact = S754_finite s m e.
Proof.
  intros Hcanon Hmax. unfold binary_round_aux, shr_fexp.
  cbn [Zdigits2 shr_record_of_loc]. rewrite Hcanon, Z.sub_diag.
  cbn [shr shr_m loc_of_shr_record round_nearest_even Zdigits2 shr_record_of_loc].
  rewrite Hcanon, Z.sub_diag. cbn [shr shr_m].
  by apply Z.leb_le in Hmax as ->.
Qed.

(** Pixel counts and other positive integers below [2^53] are finite
    non-zero numbers. *)
Lemma of_nat_finite_nonzero (n : nat) :
  0 < n -> (Z.of_nat n < 2 ^ 53)%Z ->
  Number.is_finite_nonzero (Number.of_nat n) = true.
Proof.
  intros Hpos Hlt. unfold Number.of_nat, Number.of_Z.
  destruct (Z.of_nat n) as [|p|p] eqn:Hn; [lia| |lia].
  cbn [binary_normalize]. unfold binary_round.
  pose proof (digits2_pos_bound p 53 Hlt) as Hd.
  assert (Hfexp : forall d, (1 <= d <= 53)%Z ->
            fexp Number.prec Number.emax d = (d - 53)%Z).
  { intros d Hd'. unfold fexp, emin, Number.prec, Number.emax. lia. }
  rewrite Z.add_0_r, Hfexp by lia.
  unfold shl_align. rewrite Z.sub_0_r.
  destruct (Zpos (digits2_pos p) - 53)%Z as [|q|q] eqn:Hq; [|lia|].
  - rewrite binary_round_aux_canonical; [done| |done].
    rewrite Z.add_0_r, Hfexp by lia. lia.
  - rewrite binary_round_aux_canonical; [done| |unfold Number.emax, Number.prec; lia].
    rewrite digits2_pos_iter_xO, Hfexp by lia. lia.
Qed.

Lemma exec_issue_first {X R} env (c : call X) (k : X -> prog R) w :
  exists tr, trace (exec env (Do c k) w).2 = trace w ++ Called c :: tr.
Proof.
  cbn [exec]. destruct (answer env _ c) as [x|e].
  - destruct (exec_failed_step env (k x) (effect c (issue c w))) as (tr & Htr & _).
    exists tr. rewrite Htr, trace_effect. cbn. by rewrite <- app_assoc.
  - by exists [].
Qed.

(** C8. The factor passed to [scale] is
    [Math.min(250 / height, windowWidth / width)], the target box being 250
    high and as wide as the window; when the box has the image's own
    dimensions the factor is exactly 1.0. *)
Theorem scale_factor_fits_box (image : Image) (windowWidth : number) :
  newScaleFactor (getHeight image) (getWidth image) windowWidth =
    Number.Math_min
      (Number.div (Number.of_Z 250) (Number.of_nat (getHeight image)))
      (Number.div windowWidth (Number.of_nat (getWidth image))) /\
  (forall env (ctx : CanvasRenderingContext2D) (max : option (Tensor nat)) w,
     env _ (trace w ++ [Called Dimensions_get_window_width])
           Dimensions_get_window_width = inl windowWidth ->
     env _ (trace w ++ [Called Dimensions_get_window_width; Called ctx_save])
           ctx_save = inl tt ->
     exists tr,
       trace (exec env (render (Some ctx) image max) w).2 =
       trace w ++
       [Called Dimensions_get_window_width; Called ctx_save;
        Called (ctx_scale
                  (newScaleFactor (getHeight image) (getWidth image) windowWidth)
                  (newScaleFactor (getHeight image) (getWidth image) windowWidth))]
       ++ tr) /\
  (getHeight image = 250 ->
   0 < getWidth image -> (Z.of_nat (getWidth image) < 2 ^ 53)%Z ->
   windowWidth = Number.of_nat (getWidth image) ->
   newScaleFactor (getHeight image) (getWidth image) windowWidth = Number.one).
Proof.
  split; [reflexivity|]. split.
  - intros env ctx max w Hww Hsave. unfold render.
    rewrite exec_bind, exec_do. cbn [answer]. rewrite Hww.
    rewrite exec_bind, exec_do. cbn [answer trace issue effect].
    rewrite <- ?app_assoc. cbn [app]. rewrite Hsave.
    match goal with |- context [exec env (bind (do_ ?c) ?f) ?w0] =>
      destruct (exec_issue_first env c (fun x => f x) w0) as [tr Htr]
    end.
    exists tr. etransitivity; [exact Htr|]. cbn. by rewrite <- !app_assoc.
  - intros Hh Hpos Hlt ->. unfold newScaleFactor. rewrite Hh.
    rewrite (div_self (Number.of_nat (getWidth image)))
      by by apply of_nat_finite_nonzero.
    reflexivity.
Qed.

End Scale.

(** ** Instances of the claims on the sample inputs *)

#[export] Instance OrderedScores_Z : OrderedScores Z.
Proof.
  split; cbn.
  - intros x. apply Z.ltb_irrefl.
  - intros x y z ?%Z.ltb_lt ?%Z.ltb_lt. apply Z.ltb_lt. lia.
  - intros x y z ?%Z.ltb_ge ?%Z.ltb_ge. apply Z.ltb_ge. lia.
Qed.


Example decode_sample :
  decode (Some sample_output) = Some (Tensor.mkTensor [2; 2] [2; 2; 1; 0]).
Proof. reflexivity. Qed.

Lemma preprocess_normalized_sample :
  Tensor.shape (preprocess (F := binary32) sample_image) = [1; 3; 2; 2].
Proof.
  apply (preprocess_normalized (F := binary32) sample_image). reflexivity.
Defined.

Example preprocess_pixel :
  preprocess (F := binary32) pixel_image =
  Tensor.mkTensor [1; 3; 1; 1]
    [S754_finite false 9432605 (-22); S754_finite false 13769544 (-26);
     S754_finite true 15136777 (-23)].
Proof. vm_compute. reflexivity. Qed.



(** C4 as stated fails: with a run in flight and the processing flag set, a
    second press starts a second run, and as their promises settle both
    runs come to await the model at the same time. *)
Lemma second_press_starts_second_run :
  let env := cooperative sample_image window_400 (Some sample_output) in
  let busy := press env ready_component in
  let both := settle env 0 (settle env 0 (settle env 0 (settle env 0 (press env busy)))) in
  isProcessing (world busy) = true /\
  length (inflight busy) = 1 /\
  length (inflight (press env busy)) = 2 /\
  awaiting both =
    [Called (model_forward loaded_model (preprocess sample_image));
     Called (model_forward loaded_model (preprocess sample_image))].
Proof. vm_compute. by repeat split. Qed.

Lemma press_starts_concurrent_run_sample :
  let env := cooperative sample_image window_400 (Some sample_output) in
  let busy := press env ready_component in
  exists s tr,
    inflight (press env busy) = inflight busy ++ [s] /\
    settled (press env busy) = settled busy /\
    isProcessing (world (press env busy)) = true /\
    trace (world (press env busy)) =
      trace (world busy) ++ Called (setIsProcessing true) :: tr.
Proof.
  cbv zeta.
  apply (press_starts_concurrent_run _ _ loaded_model);
    [reflexivity|reflexivity|right; reflexivity].
Defined.





Lemma render_paints_overlay_sample :
  Canvas.rectangles
    (Canvas.displayed
       (canvas
          (exec (cooperative sample_image window_400 (Some sample_output))
                (render (Some Context2D) sample_image
                        (Some (Tensor.mkTensor [2; 2] [2; 2; 1; 0])))
                (idle (F := Z))).2)) =
  [(0, 0, 1, 1, Some "cornsilk"); (1, 0, 1, 1, Some "cornsilk");
   (0, 1, 1, 1, Some "cornflowerblue")]%string.
Proof.
  set (run := exec _ _ _).
  assert (Hrun : run = (Returned tt, run.2)) by (vm_compute; reflexivity).
  destruct (render_paints_overlay _ _ _ _ _ _ Hrun) as (ww & Hww & Hdisp & _).
  injection Hww as <-. rewrite Hdisp. reflexivity.
Defined.

Lemma scale_factor_fits_box_sample :
  newScaleFactor 250 400 window_400 = Number.one.
Proof.
  apply (proj2 (proj2 (scale_factor_fits_box (F := Z) (mkImage 400 250 []) window_400)));
    [reflexivity|cbn; lia|reflexivity|reflexivity].
Defined.

Example scale_factor_end_to_end :
  newScaleFactor 100 200 window_400 = Number.of_Z 2.
Proof. vm_compute. reflexivity. Qed.


(** ** Navigation between the sample images *)
Section Navigation.
Context {F : Type} {ops : ElemOps F}.
Implicit Types (cmp : Component (F := F)).

Lemma updateImageIndex_frame (diff : Z) cmp :
  updateImageIndex diff cmp =
  mkComponent (isReady cmp) (model cmp) (context2DRef cmp)
              (imageIndex (updateImageIndex diff cmp))
              (world cmp) (inflight cmp) (settled cmp).
Proof.
  unfold updateImageIndex. destruct cmp as [r m c v w fl st].
  cbn [imageIndex isReady model context2DRef world inflight settled].
  destruct (Z.of_nat v + diff <? 0)%Z; [done|].
  by destruct (Z.of_nat v + diff >=? Z.of_nat (length IMAGES))%Z.
Qed.


(** X2. "Prev" and "Next" do not wrap around: "Prev" selects the previous
    image and does nothing on the first one; "Next" selects the next image
    and does nothing on the last one; neither touches anything else. *)
Theorem navigation_clamps cmp :
  imageIndex cmp < length IMAGES ->
  pressPrev cmp =
    mkComponent (isReady cmp) (model cmp) (context2DRef cmp)
                (Nat.pred (imageIndex cmp))
                (world cmp) (inflight cmp) (settled cmp) /\
  pressNext cmp =
    mkComponent (isReady cmp) (model cmp) (context2DRef cmp)
                (Nat.min (S (imageIndex cmp)) (length IMAGES - 1))
                (world cmp) (inflight cmp) (settled cmp).
Proof.
  intros Hlt. unfold pressPrev, pressNext.
  rewrite (updateImageIndex_frame (-1)), (updateImageIndex_frame 1).
  split; f_equal; unfold updateImageIndex.
  - destruct (Z.ltb_spec (Z.of_nat (imageIndex cmp) + -1) 0);
      [cbn; lia|].
    destruct (Z.geb_spec (Z.of_nat (imageIndex cmp) + -1) (Z.of_nat (length IMAGES)));
      cbn; lia.
  - destruct (Z.ltb_spec (Z.of_nat (imageIndex cmp) + 1) 0); [lia|].
    destruct (Z.geb_spec (Z.of_nat (imageIndex cmp) + 1) (Z.of_nat (length IMAGES)));
      cbn in *; lia.
Qed.

(** X3. "Next" then "Prev" comes back to the same component except on the
    last image, and "Prev" then "Next" except on the first one. *)
Theorem navigation_round_trip cmp :
  imageIndex cmp < length IMAGES ->
  (S (imageIndex cmp) < length IMAGES -> pressPrev (pressNext cmp) = cmp) /\
  (0 < imageIndex cmp -> pressNext (pressPrev cmp) = cmp) /\
  (S (imageIndex cmp) = length IMAGES ->
   imageIndex (pressPrev (pressNext cmp)) = Nat.pred (imageIndex cmp)) /\
  (imageIndex cmp = 0 ->
   imageIndex (pressNext (pressPrev cmp)) = 1).
Proof.
  intros Hlt. destruct cmp as [r m c v w fl st]. cbn [imageIndex] in *.
  unfold pressPrev, pressNext, updateImageIndex. cbn [imageIndex].
  repeat split; intros Hv.
  - destruct (Z.ltb_spec (Z.of_nat v + 1) 0); [lia|].
    destruct (Z.geb_spec (Z.of_nat v + 1) (Z.of_nat (length IMAGES))); [lia|].
    cbn [imageIndex isReady model context2DRef world inflight settled].
    destruct (Z.ltb_spec (Z.of_nat (Z.to_nat (Z.of_nat v + 1)) + -1) 0); [lia|].
    destruct (Z.geb_spec (Z.of_nat (Z.to_nat (Z.of_nat v + 1)) + -1)
                (Z.of_nat (length IMAGES))); [lia|].
    f_equal. lia.
  - destruct (Z.ltb_spec (Z.of_nat v + -1) 0); [lia|].
    destruct (Z.geb_spec (Z.of_nat v + -1) (Z.of_nat (length IMAGES))); [lia|].
    cbn [imageIndex isReady model context2DRef world inflight settled].
    destruct (Z.ltb_spec (Z.of_nat (Z.to_nat (Z.of_nat v + -1)) + 1) 0); [lia|].
    destruct (Z.geb_spec (Z.of_nat (Z.to_nat (Z.of_nat v + -1)) + 1)
                (Z.of_nat (length IMAGES))); [lia|].
    f_equal. lia.
  - destruct (Z.ltb_spec (Z.of_nat v + 1) 0); [lia|].
    destruct (Z.geb_spec (Z.of_nat v + 1) (Z.of_nat (length IMAGES))); [|lia].
    cbn [imageIndex].
    destruct (Z.ltb_spec (Z.of_nat v + -1) 0); [cbn in *; lia|].
    destruct (Z.geb_spec (Z.of_nat v + -1) (Z.of_nat (length IMAGES))); cbn; lia.
  - subst v. reflexivity.
Qed.

End Navigation.

(** ** The calls of a run, in order *)
Section Calls.
Context {F : Type} {ops : ElemOps F}.
Implicit Types (env : oracle (F := F)) (w : World (F := F)).






End Calls.

(** ** What a run leaves behind *)
Section Outcomes.
Context {F : Type} {ops : ElemOps F}.
Implicit Types (env : oracle (F := F)) (w : World (F := F)).


Lemma effect_not_canvas {X} (c : call X) w :
  ~ is_canvas_call (Called c) -> canvas (effect c w) = canvas w.
Proof. destruct c; cbn; tauto. Qed.

Lemma exec_all_calls {R} (Q : event (F := F) -> Prop) env (p : prog R) w :
  all_calls Q p ->
  exists tr, trace (exec env p w).2 = trace w ++ tr /\ Forall Q tr.
Proof.
  revert w. induction p as [a|e|X c k IH|X c k IH]; intros w Hp; cbn.
  1,2: exists []; by rewrite app_nil_r.
  all: destruct Hp as [Hc Hk]; destruct (answer env _ c) as [x|e]; cbn.
  2,4: exists [Called c]; split; [done|by constructor].
  all: destruct (IH x (effect c (issue c w)) (Hk x)) as (tr & Htr & HQ);
       exists (Called c :: tr); rewrite Htr, trace_effect; cbn;
       split; [by rewrite <- app_assoc|by constructor].
Qed.

Lemma exec_canvas_untouched {R} env (p : prog R) w :
  all_calls (fun ev => ~ is_canvas_call ev) p ->
  canvas (exec env p w).2 = canvas w.
Proof.
  revert w. induction p as [a|e|X c k IH|X c k IH]; intros w Hp; cbn; try done.
  all: destruct Hp as [Hc Hk]; destruct (answer env _ c) as [x|e]; cbn; [|done].
  all: rewrite IH by apply Hk; by rewrite effect_not_canvas.
Qed.

Lemma handleImage_null_context_calls (model : option Module) (url : string) :
  all_calls (F := F) (fun ev => ~ is_canvas_call ev) (handleImage model None url).
Proof.
  destruct model as [m|]; cbn; repeat (split || intro); tauto.
Qed.

(** X5. A run that completes, with or without a drawing context, has reset
    the processing flag. *)
Theorem completed_run_resets_flag env (m : Module)
    (ctx : option CanvasRenderingContext2D) (imageUrl : string) w w' :
  exec env (handleImage (Some m) ctx imageUrl) w = (Returned tt, w') ->
  isProcessing w' = false.
Proof. intros Hrun. by apply exec_handleImage in Hrun as (? & _). Qed.

(** X6. With a null drawing context a run never touches the drawing
    surface, whatever the collaborators answer and however it ends: the
    surface is as before and no call of the run is a canvas call. *)
Theorem null_context_never_draws env (model : option Module)
    (imageUrl : string) w :
  canvas (exec env (handleImage model None imageUrl) w).2 = canvas w /\
  exists tr,
    trace (exec env (handleImage model None imageUrl) w).2 = trace w ++ tr /\
    Forall (fun ev => ~ is_canvas_call ev) tr.
Proof.
  split.
  - apply exec_canvas_untouched, handleImage_null_context_calls.
  - apply exec_all_calls, handleImage_null_context_calls.
Qed.


(** X8. With a drawing context, collaborators that never raise and a model
    that resolves to [undefined], every run is rejected with the
    [TypeError] of [max.data]: the image has been queued but is not on
    screen, the processing flag stays set, the scale stays in force and the
    saved transform stays on the stack. *)
Theorem undefined_output_aborts_render env (m : Module)
    (ctx : CanvasRenderingContext2D) (imageUrl : string) w :
  (forall X tr (c : call X), exists x, env X tr c = inl x) ->
  (forall tr input, env _ tr (model_forward m input) = inl None) ->
  exists image windowWidth w',
    exec env (handleImage (Some m) (Some ctx) imageUrl) w =
      (Rejected (TypeError "Cannot read property 'data' of undefined"), w') /\
    let s := newScaleFactor (getHeight image) (getWidth image) windowWidth in
    isProcessing w' = true /\
    Canvas.displayed (canvas w') = [] /\
    Canvas.pending (canvas w') =
      [Canvas.DrawImage ((s, s) :: Canvas.transform (canvas w)) image 0 0
         (getWidth image) (getHeight image)] /\
    Canvas.transform (canvas w') = (s, s) :: Canvas.transform (canvas w) /\
    Canvas.saved (canvas w') = Canvas.transform (canvas w) :: Canvas.saved (canvas w).
Proof.
  intros Hok Hnone. unfold handleImage, render.
  cbn [exec bind do_ await answer trace issue effect].
  repeat match goal with
         | |- context [env _ ?tr (model_forward ?m' ?t)] =>
             rewrite (Hnone tr t)
         | |- context [env ?X ?tr ?c] =>
             let x := fresh "x" in let Hx := fresh "Hx" in
             destruct (Hok X tr c) as [x Hx]; rewrite Hx; clear Hx
         end.
  cbn [decode fmap option_fmap option_map paint_mask bind exec].
  match goal with
  | image : Image, ww : number |- _ => exists image, ww
  end.
  eexists. split; [reflexivity|]. by cbn.
Qed.

End Outcomes.

(** ** What the overlay is made of *)
Section OverlayContents.







End OverlayContents.

(** ** Degenerate images *)
Section Degenerate.

Lemma Math_min_infinity_l (x : number) :
  Number.Math_min (S754_infinity false) x = x.
Proof. by destruct x as [[]|[]| |[] ? ?]. Qed.

Lemma Math_min_infinity_r (x : number) :
  Number.Math_min x (S754_infinity false) = x.
Proof. by destruct x as [[]|[]| |[] ? ?]. Qed.

(** X11. For an image without rows, [250 / height] is [Infinity] and the
    factor is [windowWidth / width]; for an image without columns in a
    window of positive width, [windowWidth / width] is [Infinity] and the
    factor is [250 / height], so it is [Infinity] for an empty image; in a
    window of width 0 it is [NaN]. *)
Theorem scale_factor_degenerate (height width : nat) (windowWidth : number) :
  newScaleFactor 0 width windowWidth =
    Number.div windowWidth (Number.of_nat width) /\
  (forall m e,
     newScaleFactor height 0 (S754_finite false m e) =
       Number.div (Number.of_Z 250) (Number.of_nat height)) /\
  (forall m e, newScaleFactor 0 0 (S754_finite false m e) = S754_infinity false) /\
  (forall s, newScaleFactor height 0 (S754_zero s) = S754_nan).
Proof.
  unfold newScaleFactor. split; [|split; [|split]].
  - change (Number.div (Number.of_Z 250) (Number.of_nat 0))
      with (S754_infinity false).
    apply Math_min_infinity_l.
  - intros m e.
    change (Number.div (S754_finite false m e) (Number.of_nat 0))
      with (S754_infinity false).
    apply Math_min_infinity_r.
  - intros m e. reflexivity.
  - intros s.
    change (Number.div (S754_zero s) (Number.of_nat 0)) with S754_nan.
    unfold Number.Math_min.
    by destruct (Number.div _ _) as [[]|[]| |[] ? ?].
Qed.

End Degenerate.

(** ** The component over time *)
Section Lifetime.
Context {F : Type} {ops : ElemOps F}.
Implicit Types (env : oracle (F := F)) (w : World (F := F))
  (cmp : Component (F := F)).

Lemma all_calls_impl {R} (P Q : event (F := F) -> Prop) (p : prog R) :
  (forall ev, P ev -> Q ev) -> all_calls P p -> all_calls Q p.
Proof.
  intros HPQ. induction p as [a|e|X c k IH|X c k IH]; cbn; try done;
    intros [Hc Hk]; split; auto.
Qed.

Lemma handleImage_fetches (model : option Module)
    (ctx : option CanvasRenderingContext2D) (url : string) :
  url ∈ IMAGES -> all_calls (F := F) fetches_sample (handleImage model ctx url).
Proof.
  intros Hurl. unfold handleImage. destruct model as [m|]; [|by cbn].
  assert (Hrender : forall image max,
            all_calls (F := F) fetches_sample (render ctx image max)).
  { intros image max. destruct ctx as [c|]; [|done].
    unfold render. cbn [bind do_ await all_calls].
    repeat (split; [done|intros ?]).
    apply all_calls_bind.
    - eapply all_calls_impl; [|apply paint_mask_calls]. by intros [X []].
    - intros _. by cbn. }
  destruct ctx as [c|]; cbn [bind do_ await all_calls];
    repeat (split; [done|intros ?]);
    first [by (apply all_calls_bind; [apply Hrender|by cbn]) | done].
Qed.

Lemma ends_idle_bind {A} (p : prog (F := F) A) (f : A -> prog unit) (b : bool) :
  (forall a b', ends_idle b' (f a)) -> ends_idle b (bind p f).
Proof.
  intros Hf. revert b. induction p as [a|e|X c k IH|X c k IH]; intros b; cbn;
    auto.
Qed.

Lemma handleImage_ends_idle (m : Module)
    (ctx : option CanvasRenderingContext2D) (url : string) (b : bool) :
  ends_idle (F := F) b (handleImage (Some m) ctx url).
Proof.
  unfold handleImage. apply ends_idle_bind. intros _ b1.
  apply ends_idle_bind. intros _ b2.
  apply ends_idle_bind. intros image b3.
  apply ends_idle_bind. intros output b4.
  apply ends_idle_bind. intros _ b5. by cbn.
Qed.

Lemma idle_after_sound {X} (c : call X) (b : bool) w :
  (b = true -> isProcessing w = false) ->
  idle_after c b = true -> isProcessing (effect c (issue c w)) = false.
Proof. destruct c; cbn; auto. by intros _ ->%negb_true_iff. Qed.

Lemma advance_ends_idle env (p : prog unit) (b : bool) w :
  ends_idle b p ->
  (b = true -> isProcessing w = false) ->
  match advance env p w with
  | (Finished (Returned _), w') => isProcessing w' = false
  | (Finished (Rejected _), _) => True
  | (Waiting s, _) => forall x, ends_idle false (resume s x)
  end.
Proof.
  revert b w. induction p as [a|e|X c k IH|X c k IH]; intros b w Hp Hb; cbn;
    [auto|done| |done].
  destruct (answer env _ c) as [x|e]; [|done].
  eapply IH; [apply Hp|]. by apply idle_after_sound.
Qed.

Lemma advance_all_calls (Q : event (F := F) -> Prop) env (p : prog unit) w :
  all_calls Q p ->
  Forall Q (trace w) ->
  Forall Q (trace (advance env p w).2) /\
  match (advance env p w).1 with
  | Waiting s => forall x, all_calls Q (resume s x)
  | Finished _ => True
  end.
Proof.
  revert w. induction p as [a|e|X c k IH|X c k IH]; intros w Hp Hw; cbn;
    [done|done| |].
  - destruct Hp as [Hc Hk]. destruct (answer env _ c) as [x|e]; cbn.
    + apply IH; [done|]. rewrite trace_effect. cbn. apply Forall_app; auto.
    + split; [|done]. apply Forall_app; auto.
  - destruct Hp as [Hc Hk]. split; [|done]. apply Forall_app; auto.
Qed.

Lemma after_advance_inv cmp (rest : list Suspended) env (p : prog unit) w :
  imageIndex cmp < length IMAGES ->
  Forall fetches_sample (trace w) ->
  Forall (fun s => forall x, all_calls fetches_sample (resume s x) /\
                             ends_idle false (resume s x)) rest ->
  all_calls fetches_sample p ->
  ends_idle false p ->
  model cmp <> None ->
  component_inv (after_advance cmp rest (advance env p w)).
Proof.
  intros Hidx Hw Hrest Hcalls Hidle Hmodel.
  pose proof (advance_all_calls fetches_sample env p w Hcalls Hw) as [Htr Hres].
  pose proof (advance_ends_idle env p false w Hidle) as Hend.
  destruct (advance env p w) as [[o|s] w1]; cbn in *.
  - by repeat split.
  - split; [done|]. split; [done|]. split; [|done].
    apply Forall_app. split; [done|]. constructor; [|done].
    intros x. split; [apply Hres|by apply Hend].
Qed.

Lemma component_inv_mounted (ready : bool) (loaded : option Module) :
  component_inv (mounted (F := F) ready loaded).
Proof. repeat split; cbn; auto. lia. Qed.

Lemma component_inv_frame cmp (ctx : option CanvasRenderingContext2D)
    (v : nat) w (fl : list (Suspended (F := F))) (st : list (outcome unit)) :
  v < length IMAGES ->
  Forall fetches_sample (trace w) ->
  Forall (fun s => forall x, all_calls fetches_sample (resume s x) /\
                             ends_idle false (resume s x)) fl ->
  (model cmp = None -> isProcessing w = false /\ fl = []) ->
  component_inv (mkComponent (isReady cmp) (model cmp) ctx v w fl st).
Proof. intros Hv Hw Hfl Hnone. split; [done|]. split; [done|]. by split. Qed.

Lemma component_inv_step env cmp cmp' :
  component_inv cmp -> step env cmp cmp' -> component_inv cmp'.
Proof.
  intros (Hidx & Htr & Hfl & Hnone) Hstep.
  destruct Hstep as [cmp|cmp|cmp|ctx cmp|n cmp].
  - unfold press. destruct (isReady cmp); [|done].
    destruct (lookup_lt_is_Some_2 IMAGES (imageIndex cmp) Hidx) as [url Hurl].
    rewrite Hurl. cbn [default from_option id]. unfold request.
    destruct (model cmp) as [m|] eqn:Hm.
    + apply after_advance_inv; try done.
      * apply handleImage_fetches. by eapply list_elem_of_lookup_2.
      * apply handleImage_ends_idle.
      * by rewrite Hm.
    + cbn [handleImage bind do_ advance answer after_advance].
      apply component_inv_frame; [exact Hidx| |exact Hfl|by intros _; apply Hnone].
      cbn. apply Forall_app. split; [done|]. by repeat constructor.
  - unfold pressPrev. rewrite updateImageIndex_frame.
    apply component_inv_frame; [by apply updateImageIndex_in_bounds|done..].
  - unfold pressNext. rewrite updateImageIndex_frame.
    apply component_inv_frame; [by apply updateImageIndex_in_bounds|done..].
  - by apply component_inv_frame.
  - unfold settle. destruct (inflight cmp !! n) as [s|] eqn:Hs; [|done].
    assert (Hm : model cmp <> None).
    { intros Hm. destruct (Hnone Hm) as [_ Hin]. by rewrite Hin in Hs. }
    assert (Hrest : Forall (fun s => forall x,
                       all_calls fetches_sample (resume s x) /\
                       ends_idle false (resume s x)) (delete n (inflight cmp))).
    { by apply Forall_delete. }
    destruct (answer env _ (awaited s)) as [x|e].
    + destruct (Forall_lookup_1 _ _ _ _ Hfl Hs x) as [Hcalls Hidle].
      apply after_advance_inv; try done. by rewrite trace_effect.
    + cbn. by apply component_inv_frame.
Qed.

Lemma component_inv_reachable env cmp0 cmp :
  component_inv cmp0 -> rtc (step env) cmp0 cmp -> component_inv cmp.
Proof.
  intros H0 Hsteps. induction Hsteps as [|cmp1 cmp2 cmp3 Hstep _ IH]; [done|].
  apply IH. by eapply component_inv_step.
Qed.

(** X12. Whatever happens to the mounted component, the selected index stays
    within [IMAGES] and every image it has asked the loader for is one of
    [IMAGES]. *)
Theorem only_sample_images_fetched env (ready : bool) (loaded : option Module) cmp :
  rtc (step env) (mounted ready loaded) cmp ->
  imageIndex cmp < length IMAGES /\
  Forall fetches_sample (trace (world cmp)).
Proof.
  intros Hsteps.
  by destruct (component_inv_reachable env _ _
                 (component_inv_mounted ready loaded) Hsteps) as (? & ? & _).
Qed.

(** X13. Whenever a run of the mounted component completes, the processing
    flag is false right after, whether or not other runs are still in
    flight. *)
Theorem finished_run_clears_flag env (ready : bool) (loaded : option Module)
    cmp cmp' :
  rtc (step env) (mounted ready loaded) cmp ->
  step env cmp cmp' ->
  settled cmp' = settled cmp ++ [Returned tt] ->
  isProcessing (world cmp') = false.
Proof.
  intros Hsteps Hstep Hdone.
  destruct (component_inv_reachable env _ _
              (component_inv_mounted ready loaded) Hsteps)
    as (Hidx & Htr & Hfl & Hnone).
  assert (Hsame : forall st : list (outcome unit), st <> st ++ [Returned tt]).
  { intros st Heq. apply (f_equal length) in Heq. rewrite length_app in Heq.
    cbn in Heq. lia. }
  destruct Hstep as [cmp|cmp|cmp|ctx cmp|n cmp].
  - revert Hdone. unfold press. destruct (isReady cmp); [|by intros ?%Hsame].
    unfold request. destruct (model cmp) as [m|] eqn:Hm.
    + match goal with |- context [advance env ?p ?w0] =>
        pose proof (advance_ends_idle env p false w0
                      (handleImage_ends_idle m _ _ false)) as Hend;
        destruct (advance env p w0) as [[[[]|e]|s] w1]
      end; cbn; [by intros _; apply Hend|intros [_ [=]]%app_inj_tail|by intros ?%Hsame].
    + destruct (Hnone eq_refl) as [Hproc _]. by cbn.
  - revert Hdone. unfold pressPrev. rewrite updateImageIndex_frame. cbn.
    by intros ?%Hsame.
  - revert Hdone. unfold pressNext. rewrite updateImageIndex_frame. cbn.
    by intros ?%Hsame.
  - by apply Hsame in Hdone.
  - revert Hdone. unfold settle.
    destruct (inflight cmp !! n) as [s|] eqn:Hs; [|by intros ?%Hsame].
    destruct (answer env _ (awaited s)) as [x|e].
    + destruct (Forall_lookup_1 _ _ _ _ Hfl Hs x) as [_ Hidle].
      match goal with |- context [advance env ?p ?w0] =>
        pose proof (advance_ends_idle env p false w0 Hidle) as Hend;
        destruct (advance env p w0) as [[[[]|e]|s'] w1]
      end; cbn; [by intros _; apply Hend|intros [_ [=]]%app_inj_tail|by intros ?%Hsame].
    + cbn. by intros [_ [=]]%app_inj_tail.
Qed.

Lemma step_model env cmp cmp' : step env cmp cmp' -> model cmp' = model cmp.
Proof.
  intros [cmp0|cmp0|cmp0|ctx cmp0|n cmp0]; try done.
  - unfold press, request. destruct (isReady cmp0); [|done].
    by destruct (advance _ _ _) as [[o|s] w1].
  - unfold pressPrev. by rewrite updateImageIndex_frame.
  - unfold pressNext. by rewrite updateImageIndex_frame.
  - unfold settle. destruct (inflight cmp0 !! n) as [s|]; [|done].
    destruct (answer env _ (awaited s)) as [x|e]; [|done].
    by destruct (advance _ _ _) as [[o|s'] w1].
Qed.

(** X14. As long as [useModel] has returned no model, nothing the user does
    starts a run: however often the buttons are pressed, no run is in
    flight and the processing flag is never set. *)
Theorem no_model_no_run env (ready : bool) cmp :
  rtc (step env) (mounted ready None) cmp ->
  model cmp = None /\ inflight cmp = [] /\ isProcessing (world cmp) = false.
Proof.
  intros Hsteps.
  assert (Hmodel : model cmp = model (mounted (F := F) ready None)).
  { induction Hsteps as [|cmp1 cmp2 cmp3 Hstep _ IH]; [done|].
    rewrite IH. by apply (step_model env). }
  cbn in Hmodel.
  destruct (component_inv_reachable env _ _
              (component_inv_mounted ready None) Hsteps) as (_ & _ & _ & Hnone).
  split; [done|]. by destruct (Hnone Hmodel).
Qed.

End Lifetime.

(** ** The further properties on the sample inputs *)


Lemma navigation_clamps_sample :
  pressPrev ready_component = ready_component /\
  imageIndex (pressNext ready_component) = 1.
Proof.
  destruct (navigation_clamps ready_component) as [Hprev Hnext]; [cbn; lia|].
  split; [exact Hprev|]. rewrite Hnext. reflexivity.
Defined.

Lemma navigation_round_trip_sample :
  pressPrev (pressNext ready_component) = ready_component.
Proof.
  apply (navigation_round_trip ready_component); cbn; lia.
Defined.

Lemma completed_run_resets_flag_sample :
  isProcessing
    (exec (cooperative sample_image window_400 (Some sample_output))
          (handleImage (Some loaded_model) (Some Context2D) "image.jpeg")
          idle).2 = false.
Proof.
  apply (completed_run_resets_flag
           (cooperative sample_image window_400 (Some sample_output))
           loaded_model (Some Context2D) "image.jpeg" idle).
  vm_compute. reflexivity.
Defined.


Lemma undefined_output_aborts_render_sample :
  exists image windowWidth w',
    exec (cooperative sample_image window_400 None)
         (handleImage (F := Z) (Some loaded_model) (Some Context2D) "image.jpeg")
         idle =
      (Rejected (TypeError "Cannot read property 'data' of undefined"), w') /\
    let s := newScaleFactor (getHeight image) (getWidth image) windowWidth in
    isProcessing w' = true /\
    Canvas.displayed (canvas w') = [] /\
    Canvas.pending (canvas w') =
      [Canvas.DrawImage [(s, s)] image 0 0 (getWidth image) (getHeight image)] /\
    Canvas.transform (canvas w') = [(s, s)] /\
    Canvas.saved (canvas w') = [[]].
Proof.
  apply (undefined_output_aborts_render
           (cooperative sample_image window_400 None)
           loaded_model Context2D "image.jpeg" (idle (F := Z))).
  - intros X tr c. destruct c; eexists; reflexivity.
  - reflexivity.
Defined.


Lemma only_sample_images_fetched_sample :
  let env := cooperative sample_image window_400 (Some sample_output) in
  let cmp := press env (pressNext (mounted true (Some loaded_model))) in
  imageIndex cmp < length IMAGES /\ Forall fetches_sample (trace (world cmp)).
Proof.
  cbv zeta.
  apply (only_sample_images_fetched
           (cooperative sample_image window_400 (Some sample_output))
           true (Some loaded_model)).
  eapply rtc_l; [apply step_next|].
  eapply rtc_l; [apply step_press|]. apply rtc_refl.
Defined.

Lemma finished_run_clears_flag_sample :
  let env := cooperative sample_image window_400 (Some sample_output) in
  let cmp := settle env 0 (press env (press env (mounted true (Some loaded_model)))) in
  isProcessing (world (settle env 1 cmp)) = false /\
  length (inflight (settle env 1 cmp)) = 1.
Proof.
  cbv zeta. split; [|reflexivity].
  apply (finished_run_clears_flag
           (cooperative sample_image window_400 (Some sample_output))
           true (Some loaded_model)
           (settle (cooperative sample_image window_400 (Some sample_output)) 0
              (press (cooperative sample_image window_400 (Some sample_output))
                 (press (cooperative sample_image window_400 (Some sample_output))
                    (mounted true (Some loaded_model)))))).
  - eapply rtc_l; [apply step_press|].
    eapply rtc_l; [apply step_press|].
    eapply rtc_l; [apply (step_settle _ 0)|]. apply rtc_refl.
  - apply step_settle.
  - reflexivity.
Defined.

Lemma no_model_no_run_sample :
  let env := cooperative sample_image window_400 (Some sample_output) in
  let cmp := press env (press env (mounted true None)) in
  model cmp = None /\ inflight cmp = [] /\ isProcessing (world cmp) = false.
Proof.
  cbv zeta.
  apply (no_model_no_run
           (cooperative sample_image window_400 (Some sample_output)) true).
  eapply rtc_l; [apply step_press|].
  eapply rtc_l; [apply step_press|]. apply rtc_refl.
Defined.
